(** * Split Lease search page: pricing display and amenity utilities

    A shallow embedding of the two pure cores of the search page,
    [pricing-display] (calculateDynamicPrice, interpolatePricing,
    getPriceForNights) and [amenity-utils.js] (parseAmenities,
    fetchAmenityDetails, AMENITY_PRIORITY_MAP), followed by the properties
    the specification states about them.

    Conventions of the embedding:
    - a JavaScript number is an exact rational ([Q]); night and day counts
      are integers ([Z]).  IEEE rounding is not modelled;
    - a listing is the plain object the data layer hands over: a finite map
      from column names to values, plus the value of the expression
      [listing.price?.starting];
    - the rate columns are nullable numeric columns, so a field value is
      [undefined] (absent), [null] or a number;
    - a string is the sequence of its UTF-8 bytes. *)

From Stdlib Require Import QArith Qabs Lqa.
From Stdlib Require Import Ascii String.
From stdpp Require Import gmap strings list fin_maps pretty sorting.

Open Scope Z_scope.

(** ** JavaScript values and operators *)

Module Js.

Inductive value :=
  | Undefined
  | Null
  | Num (q : Q).

(** ToBoolean: a number is truthy unless it is zero. *)
Definition truthy (v : value) : bool :=
  match v with
  | Num q => negb (Qeq_bool q 0)
  | _ => false
  end.

(** [a || b] *)
Definition or (a b : value) : value := if truthy a then a else b.

(** [0 < q] on numbers. *)
Definition Qpositive (q : Q) : bool := 0 <? Qnum q.

(** [v > 0]: [undefined] converts to NaN and [null] to 0, neither is above 0. *)
Definition gt0 (v : value) : bool :=
  match v with
  | Num q => Qpositive q
  | _ => false
  end.

(** [parseFloat(v)]; [None] is NaN.  A number prints and parses back to
    itself, [undefined] and [null] print as words that do not parse. *)
Definition parseFloat (v : value) : option Q :=
  match v with
  | Num q => Some q
  | _ => None
  end.

(** [x || 0] for a number [x] that may be NaN. *)
Definition numOrZero (x : option Q) : Q :=
  match x with
  | Some q => if Qeq_bool q 0 then 0%Q else q
  | None => 0%Q
  end.

(** The test [price && price > 0] followed by [parseFloat(price)]: the
    number itself when the test passes. *)
Definition validPrice (price : value) : option Q :=
  if truthy price && gt0 price then parseFloat price else None.

(** [Array.prototype.sort] with the comparator [(a, b) => key(a) - key(b)].
    The sort is stable, so its result is the one insertion sort gives. *)
Section Sort.
Context {A : Type} (key : A → Z).

Fixpoint insertByKey (x : A) (l : list A) : list A :=
  match l with
  | [] => [x]
  | y :: l' => if key x <=? key y then x :: l else y :: insertByKey x l'
  end.

Fixpoint sortByKey (l : list A) : list A :=
  match l with
  | [] => []
  | x :: l' => insertByKey x (sortByKey l')
  end.

(** The order the comparator sorts into. *)
Definition ascending : relation A := λ a b, key a ≤ key b.
End Sort.

(** The same comparator over a key that may be [undefined].  With every
    key a number this is the stable sort above.  With an undefined key the
    comparator returns NaN, it is then no consistent comparison function
    and ECMAScript leaves the order to the engine: the array still holds
    the same elements, in an order that differs between engines.  The
    model returns them in the order given; nothing stated below about
    order covers that case. *)
Definition defined {A : Type} (key : A → option Z) (x : A) : bool :=
  match key x with Some _ => true | None => false end.

Definition sortByNumber {A : Type} (key : A → option Z) (l : list A) : list A :=
  if forallb (defined key) l then sortByKey (λ x, default 0 (key x)) l else l.

End Js.

(** ** The listing record *)

Record Listing := {
  fields : gmap string Js.value;     (* listing[name] *)
  price_starting : Js.value          (* listing.price?.starting *)
}.

(** [listing[name]] *)
Definition field (listing : Listing) (name : string) : Js.value :=
  default Js.Undefined (fields listing !! name).

(** [`Price ${nights} nights selected`] *)
Definition priceFieldName (nights : Z) : string :=
  "Price " +:+ pretty nights +:+ " nights selected".

(** [`💰Nightly Host Rate for ${nights} nights`] *)
Definition emojiFieldName (nights : Z) : string :=
  "💰Nightly Host Rate for " +:+ pretty nights +:+ " nights".

(** The object literal [priceFieldMap] of calculateDynamicPrice. *)
Definition priceFieldMap : gmap Z string :=
  list_to_map
    [ (2, "Price 2 nights selected");
      (3, "Price 3 nights selected");
      (4, "Price 4 nights selected");
      (5, "Price 5 nights selected");
      (6, "Price 6 nights selected");
      (7, "Price 7 nights selected") ].

(** ** pricing-display *)

Record PricePoint := { nights : Z; price : Q }.

(** [listing['Starting nightly price'] || listing.price?.starting || 0] *)
Definition startingPriceRaw (listing : Listing) : Js.value :=
  Js.or (Js.or (field listing "Starting nightly price") (price_starting listing))
        (Js.Num 0).

(** The loop [for (let nights = 2; nights <= 7; nights++)] of
    interpolatePricing, collecting [{ nights, price }]. *)
Definition pricePointAt (listing : Listing) (n : Z) : option PricePoint :=
  let price := Js.or (field listing (priceFieldName n)) (field listing (emojiFieldName n)) in
  (λ p, {| nights := n; price := p |}) <$> Js.validPrice price.

Definition availablePrices (listing : Listing) : list PricePoint :=
  omap (pricePointAt listing) [2; 3; 4; 5; 6; 7].

(** [lowerPrice.price + ((targetNights - lowerPrice.nights) / nightsRange) * priceRange] *)
Definition linear (lowerPrice higherPrice : PricePoint) (targetNights : Z) : Q :=
  let nightsRange := nights higherPrice - nights lowerPrice in
  let priceRange := (price higherPrice - price lowerPrice)%Q in
  (price lowerPrice
   + (inject_Z (targetNights - nights lowerPrice) / inject_Z nightsRange) * priceRange)%Q.

Definition lowerOf (available : list PricePoint) (targetNights : Z) : option PricePoint :=
  head (Js.sortByKey (λ p, - nights p) (filter (λ p, nights p < targetNights) available)).

Definition higherOf (available : list PricePoint) (targetNights : Z) : option PricePoint :=
  head (Js.sortByKey nights (filter (λ p, nights p > targetNights) available)).

Definition closestOf (available : list PricePoint) (targetNights : Z) : option PricePoint :=
  head (Js.sortByKey (λ p, Z.abs (nights p - targetNights)) available).

Definition interpolatePricing (listing : Listing) (targetNights : Z) : Q :=
  let available := availablePrices listing in
  if (length available <? 2)%nat then 0%Q
  else
    match lowerOf available targetNights, higherOf available targetNights with
    | Some lowerPrice, Some higherPrice => linear lowerPrice higherPrice targetNights
    | _, _ =>
        match closestOf available targetNights with
        | Some closest => price closest
        | None => 0%Q      (* unreachable: the list has two entries or more *)
        end
    end.

(** [Math.max(selectedDaysCount - 1, 1)] *)
Definition nightsCountOf (selectedDaysCount : Z) : Z :=
  Z.max (selectedDaysCount - 1) 1.

(** The final fallback, [parseFloat(startingPrice) || 0]. *)
Definition startingFallback (listing : Listing) : Q :=
  Js.numOrZero (Js.parseFloat (startingPriceRaw listing)).

Definition calculateDynamicPrice (listing : Listing) (selectedDaysCount : Z) : Q :=
  let nightsCount := nightsCountOf selectedDaysCount in
  if (2 <=? nightsCount) && (nightsCount <=? 7) then
    let fieldName := default "" (priceFieldMap !! nightsCount) in
    match Js.validPrice (field listing fieldName) with
    | Some p => p
    | None =>
        match Js.validPrice (field listing (emojiFieldName nightsCount)) with
        | Some p => p
        | None =>
            let interpolatedPrice := interpolatePricing listing nightsCount in
            if Js.Qpositive interpolatedPrice then interpolatedPrice
            else startingFallback listing
        end
    end
  else startingFallback listing.

(** [getPriceForNights] returns the raw starting-price value outside 2..7
    and a number inside. *)
Definition getPriceForNights (listing : Listing) (n : Z) : Js.value :=
  if (n <? 2) || (n >? 7) then startingPriceRaw listing
  else
    let price := Js.or (field listing (priceFieldName n)) (field listing (emojiFieldName n)) in
    match Js.validPrice price with
    | Some p => Js.Num p
    | None => Js.Num 0
    end.

(** *** Return sites

    The functions return a bare number.  The specification names the way a
    price was obtained ([Exact], [Interpolated], ...); in the code that is
    the [return] statement the price came from.  The labelled variants
    below are the same functions, each [return] paired with its label. *)

Inductive InterpolationBranch :=
  | TooFewPoints        (* return 0 *)
  | ClosestAvailable    (* return closest.price *)
  | LinearInterpolation (* return interpolatedPrice *).

Inductive Source :=
  | Exact
  | Interpolated
  | NearestNeighbor
  | StartingPriceFallback
  | Unavailable.

Definition interpolatePricingLabelled (listing : Listing) (targetNights : Z)
  : Q * InterpolationBranch :=
  let available := availablePrices listing in
  if (length available <? 2)%nat then (0%Q, TooFewPoints)
  else
    match lowerOf available targetNights, higherOf available targetNights with
    | Some lowerPrice, Some higherPrice =>
        (linear lowerPrice higherPrice targetNights, LinearInterpolation)
    | _, _ =>
        match closestOf available targetNights with
        | Some closest => (price closest, ClosestAvailable)
        | None => (0%Q, TooFewPoints)
        end
    end.

(** [parseFloat(startingPrice) || 0]: the left operand is the starting
    price, the right one the literal 0. *)
Definition startingFallbackLabelled (listing : Listing) : Q * Source :=
  match Js.parseFloat (startingPriceRaw listing) with
  | Some q => if Qeq_bool q 0 then (0%Q, Unavailable) else (q, StartingPriceFallback)
  | None => (0%Q, Unavailable)
  end.

Definition sourceOfBranch (b : InterpolationBranch) : Source :=
  match b with
  | LinearInterpolation => Interpolated
  | ClosestAvailable => NearestNeighbor
  | TooFewPoints => Unavailable   (* not used: that branch returns 0, which is not above 0 *)
  end.

Definition calculateDynamicPriceLabelled (listing : Listing) (selectedDaysCount : Z)
  : Q * Source :=
  let nightsCount := nightsCountOf selectedDaysCount in
  if (2 <=? nightsCount) && (nightsCount <=? 7) then
    let fieldName := default "" (priceFieldMap !! nightsCount) in
    match Js.validPrice (field listing fieldName) with
    | Some p => (p, Exact)
    | None =>
        match Js.validPrice (field listing (emojiFieldName nightsCount)) with
        | Some p => (p, Exact)
        | None =>
            let interpolated := interpolatePricingLabelled listing nightsCount in
            if Js.Qpositive (fst interpolated)
            then (fst interpolated, sourceOfBranch (snd interpolated))
            else startingFallbackLabelled listing
        end
    end
  else startingFallbackLabelled listing.

(** A listing built from its columns, for the worked examples. *)
Definition mkListing (columns : list (string * Js.value)) (priceStarting : Js.value)
  : Listing :=
  {| fields := list_to_map columns; price_starting := priceStarting |}.

(** ** amenity-utils.js *)

Module Info.
Record t := { priority : Z; fallbackIcon : string; fallbackName : option string }.
End Info.

Definition info (p : Z) (i n : string) : Info.t :=
  {| Info.priority := p; Info.fallbackIcon := i; Info.fallbackName := Some n |}.

(** The own properties of the object literal. *)
Definition AMENITY_PRIORITY_MAP : gmap string Info.t :=
  list_to_map
    [ ("wifi", info 1 "📶" "WiFi");
      ("air conditioned", info 2 "❄️" "A/C");
      ("gym", info 3 "💪" "Gym");
      ("elevator", info 4 "🏢" "Elevator");
      ("doorman", info 5 "🚪" "Doorman");
      ("laundry room", info 6 "🧺" "Laundry");
      ("washer", info 7 "🧺" "Washer/Dryer");
      ("dryer", info 7 "🧺" "Washer/Dryer");
      ("bike storage", info 8 "🚲" "Bike Storage");
      ("parking", info 9 "🅿️" "Parking");
      ("common outdoor space", info 10 "🌿" "Outdoor Space");
      ("balcony", info 11 "🌿" "Balcony");
      ("closet", info 12 "👔" "Closet");
      ("tv", info 13 "📺" "TV");
      ("computer", info 14 "💻" "Computer");
      ("dedicated workspace", info 15 "💻" "Workspace");
      ("desk", info 15 "💻" "Desk");
      ("towels and linens", info 16 "🛏️" "Linens");
      ("hangers", info 17 "👔" "Hangers");
      ("locked door", info 18 "🔒" "Locked Door");
      ("hot water", info 19 "💧" "Hot Water");
      ("heating", info 20 "🔥" "Heating");
      ("kitchen", info 21 "🍳" "Kitchen");
      ("coffee maker", info 22 "☕" "Coffee Maker");
      ("dishwasher", info 23 "🍽️" "Dishwasher");
      ("pet-friendly", info 24 "🐕" "Pet-Friendly");
      ("dog", info 24 "🐕" "Pet-Friendly");
      ("cat", info 24 "🐕" "Pet-Friendly") ].

Global Arguments AMENITY_PRIORITY_MAP : simpl never.

(** A row of [zat_features_amenity] as selected: [_id, Name, Icon]. *)
Module Row.
Record t := { _id : string; Name : option string; Icon : option string }.
End Row.

Inductive Category := InUnit | InBuilding.

(** The map is a plain object, so [AMENITY_PRIORITY_MAP[key]] also finds
    what every object inherits from [Object.prototype]: a function, or for
    [__proto__] the prototype itself.  Each is truthy and has neither a
    [priority] nor a [fallbackIcon]. *)
Definition objectPrototypeKeys : list string :=
  [ "constructor"; "__proto__"; "hasOwnProperty"; "isPrototypeOf";
    "propertyIsEnumerable"; "toLocaleString"; "toString"; "valueOf";
    "__defineGetter__"; "__defineSetter__"; "__lookupGetter__"; "__lookupSetter__" ].

Definition inherited (key : string) : bool := bool_decide (key ∈ objectPrototypeKeys).

(** [priorityInfo]: what [AMENITY_PRIORITY_MAP[nameLower] || { priority: 999, ... }]
    evaluates to. *)
Inductive PriorityInfo :=
  | OwnEntry (entry : Info.t)
  | InheritedMember
  | DefaultInfo (fallbackName : option string).

Definition priorityInfoOf (nameLower : string) (name : option string) : PriorityInfo :=
  match AMENITY_PRIORITY_MAP !! nameLower with
  | Some entry => OwnEntry entry
  | None => if inherited nameLower then InheritedMember else DefaultInfo name
  end.

(** [priorityInfo.priority] and [priorityInfo.fallbackIcon]; [None] is
    [undefined]. *)
Definition infoPriority (priorityInfo : PriorityInfo) : option Z :=
  match priorityInfo with
  | OwnEntry entry => Some (Info.priority entry)
  | InheritedMember => None
  | DefaultInfo _ => Some 999
  end.

Definition infoIcon (priorityInfo : PriorityInfo) : option string :=
  match priorityInfo with
  | OwnEntry entry => Some (Info.fallbackIcon entry)
  | InheritedMember => None
  | DefaultInfo _ => Some "✓"
  end.

(** [icon] and [priority] are [undefined] ([None]) for an inherited member. *)
Module Amenity.
Record t := {
  id : string;
  name : option string;
  icon : option string;
  iconUrl : option string;
  priority : option Z;
  category : Category
}.
End Amenity.

(** [String.prototype.toLowerCase], on strings held as UTF-8 bytes, as far
    as a comparison with ASCII keys can tell.  The letters A to Z are
    folded, and so is the Kelvin sign (U+212A, bytes E2 84 AA), the one
    character outside ASCII whose lower case is an ASCII letter, [k].
    Every other character outside ASCII has a lower case outside ASCII, so
    a name holding one equals no ASCII key before or after folding; such
    characters are left as they are. *)
Definition lowerChar (c : ascii) : ascii :=
  let n := nat_of_ascii c in
  if ((65 <=? n) && (n <=? 90))%nat then ascii_of_nat (n + 32) else c.

Definition isKelvinSign (c1 c2 c3 : ascii) : bool :=
  ((nat_of_ascii c1 =? 226) && (nat_of_ascii c2 =? 132) && (nat_of_ascii c3 =? 170))%nat.

Fixpoint toLowerCase (s : string) : string :=
  match s with
  | EmptyString => EmptyString
  | String c s' =>
      match s' with
      | String c2 (String c3 rest) =>
          if isKelvinSign c c2 c3 then String "k" (toLowerCase rest)
          else String (lowerChar c) (toLowerCase s')
      | _ => String (lowerChar c) (toLowerCase s')
      end
  end.

(** The argument of parseAmenities, for the two kinds of argument the
    model covers: an array of id strings, and a value that is neither an
    array nor a string, which parseJson turns into the empty array.  A
    string argument, which parseJson hands to [JSON.parse], is not
    covered. *)
Inductive AmenityField :=
  | IdArray (ids : list string)
  | NotAnArray.

Definition parseJson (value : AmenityField) : list string :=
  match value with
  | IdArray ids => ids
  | NotAnArray => []
  end.

(** What awaiting the query gives: a rejection, or [{ data, error }]. *)
Inductive QueryResult :=
  | Rejected
  | Resolved (data : option (list Row.t)) (error : option string).

(** [window.SupabaseAPI]; [selectIn ids] is
    [client.from('zat_features_amenity').select('_id, Name, Icon').in('_id', ids)]. *)
Record SupabaseAPI := {
  isInitialized : bool;
  selectIn : list string → QueryResult
}.

Definition fetchAmenityDetails (api : option SupabaseAPI) (amenityIds : list string)
  : list Row.t :=
  match amenityIds with
  | [] => []
  | _ =>
      match api with
      | None => []
      | Some api =>
          if negb (isInitialized api) then []
          else
            match selectIn api amenityIds with
            | Rejected => []
            | Resolved _ (Some _) => []
            | Resolved data None => default [] data
            end
      end
  end.

Definition toAmenity (inUnitIds : list string) (amenity : Row.t) : Amenity.t :=
  let nameLower := toLowerCase (default "" (Row.Name amenity)) in
  let priorityInfo := priorityInfoOf nameLower (Row.Name amenity) in
  {| Amenity.id := Row._id amenity;
     Amenity.name := Row.Name amenity;
     Amenity.icon := infoIcon priorityInfo;
     Amenity.iconUrl :=
       match Row.Icon amenity with
       | Some url =>
           if bool_decide (url = "") then None
           else if String.prefix "//" url then Some ("https:" +:+ url) else Some url
       | None => None
       end;
     Amenity.priority := infoPriority priorityInfo;
     Amenity.category :=
       if bool_decide (Row._id amenity ∈ inUnitIds) then InUnit else InBuilding |}.

Definition parseAmenities (api : option SupabaseAPI)
    (inUnitAmenities inBuildingAmenities : AmenityField) : list Amenity.t :=
  let inUnitIds := parseJson inUnitAmenities in
  let inBuildingIds := parseJson inBuildingAmenities in
  let allAmenityIds := inUnitIds ++ inBuildingIds in
  match allAmenityIds with
  | [] => []
  | _ =>
      let amenityDetails := fetchAmenityDetails api allAmenityIds in
      let amenities := toAmenity inUnitIds <$> amenityDetails in
      Js.sortByNumber Amenity.priority amenities
  end.

(** Modelled from the spec: the Supabase client is a library outside the
    repository, and the specification hands the aggregator the lookup
    table in memory.  The [in] filter of the query keeps the rows whose
    [_id] is among the requested ids, in table order. *)
Definition tableClient (lookupTable : list Row.t) : SupabaseAPI :=
  {| isInitialized := true;
     selectIn ids := Resolved (Some (filter (λ r, Row._id r ∈ ids) lookupTable)) None |}.

(** The aggregator of the specification: parseAmenities over two id arrays
    and an in-memory lookup table. *)
Definition aggregate (inUnitIds inBuildingIds : list string) (lookupTable : list Row.t)
  : list Amenity.t :=
  parseAmenities (Some (tableClient lookupTable)) (IdArray inUnitIds) (IdArray inBuildingIds).

(** The rank a name gets: that of its entry in the priority map under
    the lower-cased name, none ([undefined]) when the lower-cased name is
    an inherited member, 999 otherwise. *)
Definition priorityOfName (name : option string) : option Z :=
  infoPriority (priorityInfoOf (toLowerCase (default "" name)) name).

(** The rows whose lower-cased name is no inherited member: those whose
    priority is a number. *)
Definition ranked (r : Row.t) : Prop :=
  inherited (toLowerCase (default "" (Row.Name r))) = false.

(** A table row with a name and no icon, for the worked examples. *)
Definition row (i n : string) : Row.t :=
  {| Row._id := i; Row.Name := Some n; Row.Icon := None |}.

(** ** Vocabulary of the specification

    The specification speaks of a rate table, a target night count and an
    optional starting price.  [listingOf] is the listing with exactly
    those columns; [noExactRate] says that neither spelling of the column
    for [n] nights holds a price above zero. *)

Definition rateColumns (rateTable : list (Z * Q)) : list (string * Js.value) :=
  (λ entry, (priceFieldName entry.1, Js.Num entry.2)) <$> rateTable.

Definition listingOf (rateTable : list (Z * Q)) (startingPrice : option Q) : Listing :=
  mkListing
    (rateColumns rateTable ++
     match startingPrice with
     | Some q => [("Starting nightly price", Js.Num q)]
     | None => []
     end)
    Js.Undefined.

(** The listing with one column removed. *)
Definition withoutField (name : string) (listing : Listing) : Listing :=
  {| fields := delete name (fields listing);
     price_starting := price_starting listing |}.

Definition noExactRate (listing : Listing) (n : Z) : Prop :=
  Js.validPrice (field listing (priceFieldName n)) = None ∧
  Js.validPrice (field listing (emojiFieldName n)) = None.

(** ** pricing-display: the functions that render

    The markup is a fixed template.  The rendering functions are embedded
    up to that markup: the result holds the values the template is filled
    with and the choices that decide which parts are emitted.  Amounts are
    kept as numbers, before [toFixed(2)]. *)

(** [a > b] on numbers. *)
Definition Qgtb (a b : Q) : bool := negb (Qle_bool a b).

(** What renderEnhancedPricing puts into the card: the night count of the
    label and its plural, the primary amount, and the amount of the
    [Normally from] line when that line is emitted. *)
Record PricingView := {
  labelNights : Z;
  labelPlural : bool;
  primaryAmount : Q;
  normallyFrom : option Q
}.

Definition renderEnhancedPricing (listing : Listing) (selectedDaysCount : Z)
  : PricingView :=
  let nightsCount := Z.max (selectedDaysCount - 1) 1 in
  let dynamicPrice := calculateDynamicPrice listing selectedDaysCount in
  let startingPrice := Js.parseFloat (startingPriceRaw listing) in
  let showNormalPrice :=
    match startingPrice with
    | Some s => Js.Qpositive s && Qgtb (Qabs (dynamicPrice - s)) 1
    | None => false
    end in
  {| labelNights := nightsCount;
     labelPlural := nightsCount >? 1;
     primaryAmount := dynamicPrice;
     normallyFrom := if showNormalPrice then startingPrice else None |}.

(** A row of the breakdown table: [{ nights, perNightPrice, totalPrice }]. *)
Module Tier.
Record t := { nights : Z; perNightPrice : Q; totalPrice : Q }.
End Tier.

(** One round of the loop of showPricingBreakdown. *)
Definition pricingTierAt (listing : Listing) (n : Z) : option Tier.t :=
  let price := Js.or (field listing (priceFieldName n)) (field listing (emojiFieldName n)) in
  (λ p, {| Tier.nights := n; Tier.perNightPrice := p;
           Tier.totalPrice := (p * inject_Z n)%Q |}) <$> Js.validPrice price.

Definition pricingTiers (listing : Listing) : list Tier.t :=
  omap (pricingTierAt listing) [2; 3; 4; 5; 6; 7].

(** What showPricingBreakdown does: logs an error and returns, raises the
    alert that pricing is not available, or adds the modal with its table. *)
Inductive Breakdown :=
  | ListingNotFound
  | PricingNotAvailable
  | Modal (tiers : list Tier.t).

(** [window.currentListings] is an array of listings or is not set; each
    listing is paired with the value of its [id] property.
    [find(l => l.id === listingId)] takes the first match. *)
Definition findListing (currentListings : option (list (string * Listing)))
    (listingId : string) : option Listing :=
  match currentListings with
  | Some listings =>
      (λ l : string * Listing, l.2)
        <$> List.find (λ l : string * Listing, bool_decide (l.1 = listingId)) listings
  | None => None
  end.

Definition showPricingBreakdown (currentListings : option (list (string * Listing)))
    (listingId : string) : Breakdown :=
  match findListing currentListings listingId with
  | None => ListingNotFound
  | Some listing =>
      match pricingTiers listing with
      | [] => PricingNotAvailable
      | tiers => Modal tiers
      end
  end.

(** ** amenity-utils.js: renderAmenityIcons *)

(** [array.slice(0, end)] for an integer [end]: a negative [end] counts
    from the end of the array. *)
Definition slice0 {A : Type} (l : list A) (slice_end : Z) : list A :=
  let len := Z.of_nat (length l) in
  let final := if slice_end <? 0 then Z.max (len + slice_end) 0 else Z.min slice_end len in
  take (Z.to_nat final) l.

(** The content of one icon: the image of [iconUrl] with the name as its
    alternative text, or the emoji. *)
Inductive IconDisplay :=
  | Image (src : string) (alt : option string)
  | Emoji (icon : option string).

Record IconView := { tooltip : option string; display : IconDisplay }.

(** The row renderAmenityIcons emits: the placeholder for no amenities, or
    the visible icons followed by the [+N more] counter when there is one. *)
Inductive IconRow :=
  | NoAmenitiesListed
  | Icons (visible : list IconView) (more : option Z).

Definition iconView (amenity : Amenity.t) : IconView :=
  {| tooltip := Amenity.name amenity;
     display :=
       match Amenity.iconUrl amenity with
       | Some url =>
           if bool_decide (url = "") then Emoji (Amenity.icon amenity)
           else Image url (Amenity.name amenity)
       | None => Emoji (Amenity.icon amenity)
       end |}.

(** [amenities] may be null or undefined ([None]). *)
Definition renderAmenityIcons (amenities : option (list Amenity.t)) (maxVisible : Z)
  : IconRow :=
  match amenities with
  | None | Some [] => NoAmenitiesListed
  | Some amenities =>
      let visibleAmenities := slice0 amenities maxVisible in
      let hiddenCount := Z.max 0 (Z.of_nat (length amenities) - maxVisible) in
      Icons (iconView <$> visibleAmenities)
            (if hiddenCount >? 0 then Some hiddenCount else None)
  end.

(** The default parameter, [maxVisible = 6]. *)
Definition renderAmenityIconsDefault (amenities : option (list Amenity.t)) : IconRow :=
  renderAmenityIcons amenities 6.

(** The ways the lookup of fetchAmenityDetails comes back empty-handed:
    no API object, an API that is not initialised, a query that throws, a
    query that reports an error, or one that resolves without data. *)
Definition lookupFails (api : option SupabaseAPI) (amenityIds : list string) : Prop :=
  match api with
  | None => True
  | Some api =>
      isInitialized api = false ∨
      match selectIn api amenityIds with
      | Rejected => True
      | Resolved _ (Some _) => True
      | Resolved None None => True
      | Resolved (Some _) None => False
      end
  end.

(** An ASCII capital letter, and a string holding one. *)
Definition isUpperAscii (c : ascii) : bool :=
  let n := nat_of_ascii c in ((65 <=? n) && (n <=? 90))%nat.

Fixpoint hasUpperAscii (s : string) : bool :=
  match s with
  | EmptyString => false
  | String c s' => isUpperAscii c || hasUpperAscii s'
  end.

(** * Properties *)

(** ** Numbers and values *)

Lemma Qpositive_spec (q : Q) : Js.Qpositive q = true ↔ (0 < q)%Q.
Proof.
  unfold Js.Qpositive, Qlt. simpl. rewrite Z.ltb_lt. lia.
Qed.

Lemma Qpositive_false (q : Q) : Js.Qpositive q = false ↔ (q <= 0)%Q.
Proof.
  unfold Js.Qpositive, Qle. simpl. rewrite Z.ltb_ge. lia.
Qed.

Lemma validPrice_Some (v : Js.value) (q : Q) :
  Js.validPrice v = Some q ↔ v = Js.Num q ∧ (0 < q)%Q.
Proof.
  unfold Js.validPrice. destruct v as [| |r]; simpl; try (split; [done|intros [? _]; done]).
  destruct (negb (Qeq_bool r 0)) eqn:Hz, (Js.Qpositive r) eqn:Hp; simpl.
  - apply Qpositive_spec in Hp. split; [intros [= ->]; done|]. by intros [[= ->] _].
  - split; [done|]. intros [[= ->] Hq%Qpositive_spec]. congruence.
  - apply Qpositive_spec in Hp. apply negb_false_iff, Qeq_bool_iff in Hz.
    rewrite Hz in Hp. by apply Qlt_irrefl in Hp.
  - split; [done|]. intros [[= ->] Hq%Qpositive_spec]. congruence.
Qed.

Lemma validPrice_None (v : Js.value) :
  Js.validPrice v = None ↔ ∀ q, v = Js.Num q → (q <= 0)%Q.
Proof.
  split.
  - intros Hn q ->. apply Qnot_lt_le. intros Hq.
    assert (Js.validPrice (Js.Num q) = Some q) as E by by apply validPrice_Some.
    congruence.
  - intros Hv. destruct (Js.validPrice v) as [q|] eqn:E; [|done].
    apply validPrice_Some in E as [-> Hq]. specialize (Hv q eq_refl).
    exfalso. by apply (Qlt_not_le _ _ Hq).
Qed.

(** ** The stable sort *)

Section SortFacts.
Context {A : Type} (key : A → Z).

Lemma insertByKey_perm (x : A) (l : list A) : Js.insertByKey key x l ≡ₚ x :: l.
Proof.
  induction l as [|y l IH]; simpl; [done|].
  destruct (key x <=? key y); [done|].
  rewrite IH. apply Permutation_swap.
Qed.

Lemma sortByKey_perm (l : list A) : Js.sortByKey key l ≡ₚ l.
Proof.
  induction l as [|x l IH]; simpl; [done|].
  by rewrite insertByKey_perm, IH.
Qed.

Lemma elem_of_sortByKey (x : A) (l : list A) : x ∈ Js.sortByKey key l ↔ x ∈ l.
Proof. by rewrite sortByKey_perm. Qed.

Lemma insertByKey_sorted (x : A) (l : list A) :
  StronglySorted (Js.ascending key) l → StronglySorted (Js.ascending key) (Js.insertByKey key x l).
Proof.
  induction 1 as [|y l Hl IH Hy]; simpl.
  - repeat constructor.
  - destruct (key x <=? key y) eqn:E.
    + apply Z.leb_le in E. constructor; [by constructor|].
      constructor; [done|]. eapply Forall_impl; [exact Hy|].
      unfold Js.ascending. intros; simpl in *; lia.
    + apply Z.leb_gt in E. constructor; [done|].
      rewrite insertByKey_perm. constructor; [|done].
      unfold Js.ascending. lia.
Qed.

Lemma sortByKey_sorted (l : list A) : StronglySorted (Js.ascending key) (Js.sortByKey key l).
Proof.
  induction l as [|x l IH]; simpl; [constructor|]. by apply insertByKey_sorted.
Qed.

(** Stability: the elements of one key keep their relative order. *)
Lemma insertByKey_stable (k : Z) (x : A) (l : list A) :
  filter (λ a, key a = k) (Js.insertByKey key x l) = filter (λ a, key a = k) (x :: l).
Proof.
  induction l as [|y l IH]; simpl; [done|].
  destruct (key x <=? key y) eqn:E; [done|]. apply Z.leb_gt in E.
  rewrite !filter_cons in *.
  destruct (decide (key y = k)), (decide (key x = k)); try lia; by rewrite IH.
Qed.

Lemma sortByKey_stable (k : Z) (l : list A) :
  filter (λ a, key a = k) (Js.sortByKey key l) = filter (λ a, key a = k) l.
Proof.
  induction l as [|x l IH]; simpl; [done|].
  rewrite insertByKey_stable, !filter_cons. by rewrite IH.
Qed.

(** Element [0] of the sorted array has the least key. *)
Lemma head_sortByKey_least (x : A) (l : list A) :
  head (Js.sortByKey key l) = Some x → x ∈ l ∧ ∀ y, y ∈ l → key x ≤ key y.
Proof.
  intros Hh. pose proof (sortByKey_sorted l) as Hs.
  destruct (Js.sortByKey key l) as [|z s] eqn:E; simplify_eq/=.
  assert (∀ y, y ∈ l ↔ y ∈ x :: s) as Hin.
  { intros y. by rewrite <-E, elem_of_sortByKey. }
  split; [apply Hin; left|].
  intros y [->|Hy]%Hin%elem_of_cons; [lia|].
  apply StronglySorted_inv in Hs as [_ Hall].
  rewrite Forall_forall in Hall. by apply Hall.
Qed.

Lemma head_sortByKey_is_Some (l : list A) : l ≠ [] → is_Some (head (Js.sortByKey key l)).
Proof.
  intros Hl. destruct (Js.sortByKey key l) as [|z s] eqn:E; [|by eexists].
  pose proof (sortByKey_perm l) as Hp. rewrite E in Hp.
  by apply Permutation_nil_l in Hp.
Qed.

Lemma head_sortByKey_None (l : list A) : head (Js.sortByKey key l) = None → l = [].
Proof.
  intros Hh. destruct l as [|x l]; [done|].
  destruct (head_sortByKey_is_Some (x :: l)) as [? ?]; [done|congruence].
Qed.
End SortFacts.

(** ** Pricing: the collected price points *)

(** Case analysis on a night count known to lie in 2..7. *)
Ltac night_cases n :=
  let Hc := fresh in
  assert (n = 2 ∨ n = 3 ∨ n = 4 ∨ n = 5 ∨ n = 6 ∨ n = 7) as Hc by lia;
  destruct Hc as [->|[->|[->|[->|[->| ->]]]]].

Lemma priceFieldMap_lookup (n : Z) :
  2 ≤ n ≤ 7 → default "" (priceFieldMap !! n) = priceFieldName n.
Proof.
  intros Hn. night_cases n; reflexivity.
Qed.

Lemma in_range_spec (n : Z) : (2 <=? n) && (n <=? 7) = true ↔ 2 ≤ n ≤ 7.
Proof. rewrite andb_true_iff, !Z.leb_le. lia. Qed.

Lemma or_invalid (a b : Js.value) :
  Js.validPrice a = None → Js.validPrice b = None → Js.validPrice (Js.or a b) = None.
Proof. unfold Js.or. by destruct (Js.truthy a). Qed.

Lemma pricePointAt_Some (listing : Listing) (n : Z) (p : PricePoint) :
  pricePointAt listing n = Some p → nights p = n ∧ (0 < price p)%Q.
Proof.
  unfold pricePointAt. intros H.
  apply fmap_Some in H as (q & Hq & ->). simpl.
  by apply validPrice_Some in Hq as [_ ?].
Qed.

Lemma pricePointAt_noExactRate (listing : Listing) (n : Z) :
  noExactRate listing n → pricePointAt listing n = None.
Proof.
  intros [H1 H2]. unfold pricePointAt. by rewrite or_invalid.
Qed.

Lemma elem_of_availablePrices (listing : Listing) (p : PricePoint) :
  p ∈ availablePrices listing ↔
  2 ≤ nights p ≤ 7 ∧ pricePointAt listing (nights p) = Some p.
Proof.
  unfold availablePrices. rewrite list_elem_of_omap. split.
  - intros (n & Hn & Hp). destruct (pricePointAt_Some _ _ _ Hp) as [<- _].
    split; [|done]. set_unfold. lia.
  - intros [Hn Hp]. exists (nights p). split; [|done]. set_unfold. lia.
Qed.

Lemma availablePrices_positive (listing : Listing) (p : PricePoint) :
  p ∈ availablePrices listing → (0 < price p)%Q.
Proof.
  intros [_ Hp]%elem_of_availablePrices. by apply pricePointAt_Some in Hp as [_ ?].
Qed.

Lemma availablePrices_nights_inj (listing : Listing) (p p' : PricePoint) :
  p ∈ availablePrices listing → p' ∈ availablePrices listing →
  nights p = nights p' → p = p'.
Proof.
  intros [_ Hp]%elem_of_availablePrices [_ Hp']%elem_of_availablePrices E.
  rewrite E, Hp' in Hp. congruence.
Qed.

Lemma availablePrices_not_target (listing : Listing) (n : Z) (p : PricePoint) :
  noExactRate listing n → p ∈ availablePrices listing → nights p ≠ n.
Proof.
  intros Hm [_ Hp]%elem_of_availablePrices E. rewrite E in Hp.
  by rewrite (pricePointAt_noExactRate _ _ Hm) in Hp.
Qed.

Lemma two_elements {A : Type} (l : list A) (x y : A) :
  x ∈ l → y ∈ l → x ≠ y → (length l <? 2)%nat = false.
Proof.
  intros Hx Hy Hne. apply Nat.ltb_ge.
  destruct l as [|a [|b l]]; simpl; [|exfalso|lia].
  - by apply not_elem_of_nil in Hx.
  - apply list_elem_of_singleton in Hx, Hy. congruence.
Qed.

(** ** Pricing: the nearest point on each side *)

Lemma lowerOf_Some (available : list PricePoint) (t : Z) (lo : PricePoint) :
  lowerOf available t = Some lo →
  lo ∈ available ∧ nights lo < t ∧
  ∀ p, p ∈ available → nights p < t → nights p ≤ nights lo.
Proof.
  unfold lowerOf. intros [Hin Hleast]%head_sortByKey_least.
  apply list_elem_of_filter in Hin as [Hlt Hin]. split_and!; [done..|].
  intros p Hp Hpt. assert (p ∈ filter (λ p, nights p < t) available) as Hf.
  { by apply list_elem_of_filter. }
  specialize (Hleast p Hf). simpl in Hleast. lia.
Qed.

Lemma higherOf_Some (available : list PricePoint) (t : Z) (hi : PricePoint) :
  higherOf available t = Some hi →
  hi ∈ available ∧ t < nights hi ∧
  ∀ p, p ∈ available → t < nights p → nights hi ≤ nights p.
Proof.
  unfold higherOf. intros [Hin Hleast]%head_sortByKey_least.
  apply list_elem_of_filter in Hin as [Hlt Hin]. split_and!; [done|lia|].
  intros p Hp Hpt. apply Hleast, list_elem_of_filter. split; [lia|done].
Qed.

Lemma lowerOf_None (available : list PricePoint) (t : Z) :
  lowerOf available t = None ↔ ∀ p, p ∈ available → ¬ nights p < t.
Proof.
  unfold lowerOf. split.
  - intros Hn%head_sortByKey_None p Hp Hlt.
    assert (p ∈ filter (λ p, nights p < t) available) as Hf by by apply list_elem_of_filter.
    rewrite Hn in Hf. by apply not_elem_of_nil in Hf.
  - intros Hall. destruct (head _) as [lo|] eqn:E; [|done].
    apply lowerOf_Some in E as (Hin & Hlt & _). by destruct (Hall lo Hin).
Qed.

Lemma higherOf_None (available : list PricePoint) (t : Z) :
  higherOf available t = None ↔ ∀ p, p ∈ available → ¬ t < nights p.
Proof.
  unfold higherOf. split.
  - intros Hn%head_sortByKey_None p Hp Hlt.
    assert (p ∈ filter (λ p, nights p > t) available) as Hf.
    { apply list_elem_of_filter. split; [lia|done]. }
    rewrite Hn in Hf. by apply not_elem_of_nil in Hf.
  - intros Hall. destruct (head _) as [hi|] eqn:E; [|done].
    apply higherOf_Some in E as (Hin & Hlt & _). by destruct (Hall hi Hin).
Qed.

Lemma closestOf_Some (available : list PricePoint) (t : Z) (c : PricePoint) :
  closestOf available t = Some c →
  c ∈ available ∧
  ∀ p, p ∈ available → Z.abs (nights c - t) ≤ Z.abs (nights p - t).
Proof. unfold closestOf. by intros [Hin Hleast]%head_sortByKey_least. Qed.

Lemma linear_positive (lo hi : PricePoint) (t : Z) :
  (0 < price lo)%Q → (0 < price hi)%Q → nights lo < t < nights hi →
  (0 < linear lo hi t)%Q.
Proof.
  intros Hlo Hhi [H1 H2]. unfold linear.
  set (a := inject_Z (t - nights lo)). set (b := inject_Z (nights hi - nights lo)).
  assert (0 < a)%Q as Ha.
  { unfold a. change 0%Q with (inject_Z 0). rewrite <-Zlt_Qlt. lia. }
  assert (a < b)%Q as Hab.
  { unfold a, b. rewrite <-Zlt_Qlt. lia. }
  assert (0 < a / b)%Q as Hf0.
  { apply Qlt_shift_div_l; lra. }
  assert (a / b < 1)%Q as Hf1.
  { apply Qlt_shift_div_r; lra. }
  set (f := (a / b)%Q) in *. nra.
Qed.

(** ** Pricing: the labelled functions and the code *)

Lemma interpolatePricingLabelled_fst (listing : Listing) (t : Z) :
  (interpolatePricingLabelled listing t).1 = interpolatePricing listing t.
Proof.
  unfold interpolatePricingLabelled, interpolatePricing.
  repeat case_match; done.
Qed.

Lemma startingFallbackLabelled_fst (listing : Listing) :
  (startingFallbackLabelled listing).1 = startingFallback listing.
Proof.
  unfold startingFallbackLabelled, startingFallback, Js.numOrZero.
  repeat case_match; done.
Qed.

Lemma calculateDynamicPriceLabelled_fst (listing : Listing) (days : Z) :
  (calculateDynamicPriceLabelled listing days).1 = calculateDynamicPrice listing days.
Proof.
  unfold calculateDynamicPriceLabelled, calculateDynamicPrice.
  rewrite interpolatePricingLabelled_fst.
  repeat case_match; simpl; auto using startingFallbackLabelled_fst.
Qed.

Lemma outside_range (listing : Listing) (days : Z) :
  ¬ 2 ≤ nightsCountOf days ≤ 7 →
  calculateDynamicPriceLabelled listing days = startingFallbackLabelled listing.
Proof.
  intros Hn. unfold calculateDynamicPriceLabelled.
  destruct ((2 <=? _) && (_ <=? 7)) eqn:E; [|done].
  by apply in_range_spec in E.
Qed.

Lemma inside_range_noExactRate (listing : Listing) (days : Z) :
  2 ≤ nightsCountOf days ≤ 7 → noExactRate listing (nightsCountOf days) →
  calculateDynamicPriceLabelled listing days =
    let interpolated := interpolatePricingLabelled listing (nightsCountOf days) in
    if Js.Qpositive interpolated.1
    then (interpolated.1, sourceOfBranch interpolated.2)
    else startingFallbackLabelled listing.
Proof.
  intros Hn [H1 H2]. unfold calculateDynamicPriceLabelled.
  rewrite (proj2 (in_range_spec _) Hn), priceFieldMap_lookup by done.
  by rewrite H1, H2.
Qed.

Lemma startingPriceRaw_number (listing : Listing) :
  ∃ q, startingPriceRaw listing = Js.Num q.
Proof.
  unfold startingPriceRaw. set (v := Js.or (field _ _) _). unfold Js.or.
  destruct (Js.truthy v) eqn:E; [|eauto].
  destruct v; simpl in E; try done; eauto.
Qed.

Lemma startingFallbackLabelled_cases (listing : Listing) (q : Q) :
  startingPriceRaw listing = Js.Num q →
  startingFallbackLabelled listing =
    if Qeq_bool q 0 then (0%Q, Unavailable) else (q, StartingPriceFallback).
Proof. unfold startingFallbackLabelled. by intros ->. Qed.

Lemma no_rate_no_point (listing : Listing) :
  (∀ n, 2 ≤ n ≤ 7 → noExactRate listing n) → availablePrices listing = [].
Proof.
  intros Hall. unfold availablePrices. simpl.
  by rewrite !pricePointAt_noExactRate by (apply Hall; lia).
Qed.

(** ** Pricing: night counts outside 2..7 and the final fallback *)

(** C2, as the code has it.  A day count that leaves no positive number of
    nights raises nothing: [Math.max] clamps the night count to 1, which is
    outside 2..7, and the starting-price fallback is returned. *)
Theorem nonpositive_nights_clamped (listing : Listing) (days : Z) :
  days - 1 ≤ 0 →
  nightsCountOf days = 1 ∧
  calculateDynamicPriceLabelled listing days = startingFallbackLabelled listing ∧
  calculateDynamicPrice listing days = startingFallback listing.
Proof.
  intros Hd. assert (nightsCountOf days = 1) as Hn by (unfold nightsCountOf; lia).
  assert (calculateDynamicPriceLabelled listing days = startingFallbackLabelled listing) as E.
  { apply outside_range. rewrite Hn. lia. }
  split_and!; [done..|].
  by rewrite <-calculateDynamicPriceLabelled_fst, E, startingFallbackLabelled_fst.
Qed.

Lemma nonpositive_nights_clamped_witness :
  nightsCountOf 1 = 1 ∧
  calculateDynamicPriceLabelled (listingOf [(3, 300%Q)] (Some 150%Q)) 1
    = startingFallbackLabelled (listingOf [(3, 300%Q)] (Some 150%Q)) ∧
  calculateDynamicPrice (listingOf [(3, 300%Q)] (Some 150%Q)) 1
    = startingFallback (listingOf [(3, 300%Q)] (Some 150%Q)).
Proof. apply (nonpositive_nights_clamped _ 1). lia. Defined.

(** C2 as stated fails: for a target of 0 nights (one day selected) and of
    -1 nights the call returns the price 150, computed for the defaulted
    night count 1. *)
Lemma nonpositive_nights_return_a_price :
  nightsCountOf 1 = 1 ∧ nightsCountOf 0 = 1 ∧
  calculateDynamicPriceLabelled (listingOf [] (Some 150%Q)) 1
    = (150%Q, StartingPriceFallback) ∧
  calculateDynamicPriceLabelled (listingOf [] (Some 150%Q)) 0
    = (150%Q, StartingPriceFallback) ∧
  calculateDynamicPrice (listingOf [] (Some 150%Q)) 1 = 150%Q.
Proof. by vm_compute. Qed.

(** C3, as the code has it.  Outside 2..7 the rate columns are not read:
    the guard [nightsCount >= 2 && nightsCount <= 7] sends every such night
    count to the starting-price fallback. *)
Theorem outside_range_uses_starting_price (listing : Listing) (days : Z) :
  nightsCountOf days < 2 ∨ 7 < nightsCountOf days →
  calculateDynamicPriceLabelled listing days = startingFallbackLabelled listing ∧
  calculateDynamicPrice listing days = startingFallback listing.
Proof.
  intros Hn.
  assert (calculateDynamicPriceLabelled listing days = startingFallbackLabelled listing) as E.
  { apply outside_range. lia. }
  split; [done|].
  by rewrite <-calculateDynamicPriceLabelled_fst, E, startingFallbackLabelled_fst.
Qed.

Lemma outside_range_uses_starting_price_witness :
  calculateDynamicPriceLabelled (listingOf [(2, 200%Q); (7, 700%Q)] (Some 150%Q)) 9
    = startingFallbackLabelled (listingOf [(2, 200%Q); (7, 700%Q)] (Some 150%Q)) ∧
  calculateDynamicPrice (listingOf [(2, 200%Q); (7, 700%Q)] (Some 150%Q)) 9
    = startingFallback (listingOf [(2, 200%Q); (7, 700%Q)] (Some 150%Q)).
Proof. apply (outside_range_uses_starting_price _ 9). vm_compute. right. done. Defined.

(** C3 as stated fails: with rates {2: 200, 7: 700}, starting price 150 and
    a target of 8 nights the nearest known rate is the one for 7 nights, yet
    the starting price comes back. *)
Lemma target_8_gets_starting_price :
  let listing := listingOf [(2, 200%Q); (7, 700%Q)] (Some 150%Q) in
  nightsCountOf 9 = 8 ∧
  closestOf (availablePrices listing) 8 = Some {| nights := 7; price := 700 |} ∧
  calculateDynamicPriceLabelled listing 9 = (150%Q, StartingPriceFallback) ∧
  ¬ (calculateDynamicPrice listing 9 == 700)%Q.
Proof. by vm_compute. Qed.

(** The final fallback without known rates, where the starting price is
    not negative.  With no price above zero in any rate column the result
    is [parseFloat(startingPrice) || 0] over the first truthy one of the
    two starting-price spellings: the starting price with source
    StartingPriceFallback when it is positive, 0 with source Unavailable
    when both spellings are absent or zero; the amount is at least 0
    whenever the starting price is. *)
Theorem no_rates_starting_price (listing : Listing) (days : Z) :
  (∀ n, 2 ≤ n ≤ 7 → noExactRate listing n) →
  ∃ q, startingPriceRaw listing = Js.Num q ∧
    calculateDynamicPriceLabelled listing days
      = (if Qeq_bool q 0 then (0%Q, Unavailable) else (q, StartingPriceFallback)) ∧
    ((0 < q)%Q →
       calculateDynamicPriceLabelled listing days = (q, StartingPriceFallback)) ∧
    ((q == 0)%Q →
       calculateDynamicPriceLabelled listing days = (0%Q, Unavailable)) ∧
    ((0 <= q)%Q → (0 <= (calculateDynamicPriceLabelled listing days).1)%Q).
Proof.
  intros Hall. destruct (startingPriceRaw_number listing) as [q Hq].
  exists q. split; [done|].
  assert (calculateDynamicPriceLabelled listing days = startingFallbackLabelled listing) as E.
  { destruct (decide (2 ≤ nightsCountOf days ≤ 7)) as [Hn|Hn]; [|by apply outside_range].
    rewrite inside_range_noExactRate by auto.
    unfold interpolatePricingLabelled. by rewrite no_rate_no_point. }
  rewrite E, (startingFallbackLabelled_cases _ _ Hq).
  destruct (Qeq_bool q 0) eqn:Hz.
  - apply Qeq_bool_iff in Hz. split_and!; [done| |done|done].
    intros Hp. rewrite Hz in Hp. by apply Qlt_irrefl in Hp.
  - apply Qeq_bool_neq in Hz. split_and!; [done|done|done|done].
Qed.

Lemma no_rates_starting_price_witness :
  ∃ q, startingPriceRaw (listingOf [] (Some 150%Q)) = Js.Num q ∧
    calculateDynamicPriceLabelled (listingOf [] (Some 150%Q)) 4
      = (if Qeq_bool q 0 then (0%Q, Unavailable) else (q, StartingPriceFallback)) ∧
    ((0 < q)%Q →
       calculateDynamicPriceLabelled (listingOf [] (Some 150%Q)) 4
         = (q, StartingPriceFallback)) ∧
    ((q == 0)%Q →
       calculateDynamicPriceLabelled (listingOf [] (Some 150%Q)) 4 = (0%Q, Unavailable)) ∧
    ((0 <= q)%Q →
       (0 <= (calculateDynamicPriceLabelled (listingOf [] (Some 150%Q)) 4).1)%Q).
Proof.
  apply (no_rates_starting_price (listingOf [] (Some 150%Q)) 4).
  intros n Hn. night_cases n; split; reflexivity.
Defined.

(** The worked examples of the total fallback. *)
Example total_fallback_150 :
  calculateDynamicPriceLabelled (listingOf [] (Some 150%Q)) 4 = (150%Q, StartingPriceFallback).
Proof. reflexivity. Qed.

Example total_fallback_none :
  calculateDynamicPriceLabelled (listingOf [] None) 4 = (0%Q, Unavailable).
Proof. reflexivity. Qed.

(** C5.  The code at the failing input: an empty rate table with starting
    price -50 resolves to -50, a negative amount, from the starting-price
    return.  The final fallback is the one return of calculateDynamicPrice
    without a test for a price above zero; the claim asks for 0 with source
    Unavailable there, and for an amount of at least 0 on every input. *)
Lemma negative_starting_price_returned :
  let listing := listingOf [] (Some (-50)%Q) in
  availablePrices listing = [] ∧
  calculateDynamicPriceLabelled listing 4 = ((-50)%Q, StartingPriceFallback) ∧
  (calculateDynamicPrice listing 4 < 0)%Q.
Proof. by vm_compute. Qed.

(** ** Pricing: getPriceForNights *)

(** C10.  Inside 2..7, when neither spelling of the rate column holds a
    price above zero (absent, null, zero or negative), getPriceForNights
    returns 0 whatever the other columns and the starting price are.
    Outside 2..7 it returns the raw starting-price value (0 when both
    spellings are absent), the same for any two listings that agree on the
    starting price. *)
Theorem getPriceForNights_table_only (listing : Listing) (n : Z) :
  (2 ≤ n ≤ 7 → noExactRate listing n → getPriceForNights listing n = Js.Num 0) ∧
  (n < 2 ∨ 7 < n →
     getPriceForNights listing n = startingPriceRaw listing ∧
     (field listing "Starting nightly price" = Js.Undefined →
      price_starting listing = Js.Undefined →
      getPriceForNights listing n = Js.Num 0) ∧
     (∀ other : Listing,
        field other "Starting nightly price" = field listing "Starting nightly price" →
        price_starting other = price_starting listing →
        getPriceForNights other n = getPriceForNights listing n)).
Proof.
  unfold getPriceForNights. split.
  - intros Hn [H1 H2].
    replace ((n <? 2) || (n >? 7)) with false by lia.
    by rewrite or_invalid.
  - intros Hn. replace ((n <? 2) || (n >? 7)) with true by lia.
    split_and!; [done| |].
    + unfold startingPriceRaw. by intros -> ->.
    + intros other H1 H2. unfold startingPriceRaw. by rewrite H1, H2.
Qed.

Lemma getPriceForNights_table_only_witness :
  getPriceForNights (listingOf [(3, 300%Q); (4, 0%Q); (5, 500%Q)] (Some 150%Q)) 4 = Js.Num 0 ∧
  getPriceForNights (listingOf [(3, 300%Q); (4, 0%Q); (5, 500%Q)] (Some 150%Q)) 8 = Js.Num 150.
Proof.
  split.
  - apply (proj1 (getPriceForNights_table_only _ 4)); [lia|split; reflexivity].
  - rewrite (proj1 (proj2 (getPriceForNights_table_only _ 8) (or_intror eq_refl))).
    reflexivity.
Defined.

(** ** Pricing: interpolation between the nearest points *)

(** C6.  With a known rate strictly below and one strictly above the night
    count, interpolatePricing takes the nearest known point on each side,
    the two night counts differ, and the result is the linear
    interpolation between them; calculateDynamicPrice returns it, from the
    interpolation branch, whenever the night count has no rate of its own. *)
Theorem interpolation_between_nearest (listing : Listing) (days : Z) :
  let t := nightsCountOf days in
  let available := availablePrices listing in
  (∃ p, p ∈ available ∧ nights p < t) →
  (∃ p, p ∈ available ∧ t < nights p) →
  ∃ lo hi,
    lo ∈ available ∧ hi ∈ available ∧ nights lo < t < nights hi ∧
    (∀ p, p ∈ available → nights p < t → nights p ≤ nights lo) ∧
    (∀ p, p ∈ available → t < nights p → nights hi ≤ nights p) ∧
    nights hi - nights lo ≠ 0 ∧
    let interpolated :=
      (price lo + (inject_Z (t - nights lo) / inject_Z (nights hi - nights lo))
                  * (price hi - price lo))%Q in
    interpolatePricingLabelled listing t = (interpolated, LinearInterpolation) ∧
    interpolatePricing listing t = interpolated ∧
    (noExactRate listing t →
       calculateDynamicPriceLabelled listing days = (interpolated, Interpolated) ∧
       calculateDynamicPrice listing days = interpolated).
Proof.
  intros t available (pl & Hpl & Hlt) (ph & Hph & Hgt).
  destruct (lowerOf available t) as [lo|] eqn:Elo.
  2: { rewrite lowerOf_None in Elo. by destruct (Elo pl Hpl). }
  destruct (higherOf available t) as [hi|] eqn:Ehi.
  2: { rewrite higherOf_None in Ehi. by destruct (Ehi ph Hph). }
  pose proof (lowerOf_Some _ _ _ Elo) as (Hlo & Hlot & Hlon).
  pose proof (higherOf_Some _ _ _ Ehi) as (Hhi & Hhit & Hhin).
  assert (2 ≤ t ≤ 7) as Ht.
  { apply elem_of_availablePrices in Hlo as [? _], Hhi as [? _]. lia. }
  assert (interpolatePricingLabelled listing t = (linear lo hi t, LinearInterpolation)) as E.
  { unfold interpolatePricingLabelled. fold available.
    rewrite (two_elements available lo hi), Elo, Ehi; [done..|].
    intros ->. lia. }
  exists lo, hi. split_and!; [done|done|lia|lia|done|done|lia|].
  simpl. fold (linear lo hi t). split_and!; [done| |].
  - by rewrite <-interpolatePricingLabelled_fst, E.
  - intros Hm.
    assert (calculateDynamicPriceLabelled listing days = (linear lo hi t, Interpolated)) as Ec.
    { rewrite inside_range_noExactRate by done. fold t. rewrite E. simpl.
      rewrite (proj2 (Qpositive_spec _)); [done|].
      apply linear_positive; [by eapply availablePrices_positive..|lia]. }
    split; [done|]. by rewrite <-calculateDynamicPriceLabelled_fst, Ec.
Qed.

Lemma interpolation_between_nearest_witness :
  let r := calculateDynamicPriceLabelled (listingOf [(3, 300%Q); (5, 500%Q)] None) 5 in
  (r.1 == 400)%Q ∧ r.2 = Interpolated.
Proof.
  destruct (interpolation_between_nearest (listingOf [(3, 300%Q); (5, 500%Q)] None) 5)
    as (lo & hi & Hlo & Hhi & Hn & _ & _ & _ & _ & _ & Hc).
  - exists {| nights := 3; price := 300 |}. split; [|reflexivity].
    apply elem_of_availablePrices. split; [simpl; lia|reflexivity].
  - exists {| nights := 5; price := 500 |}. split; [|reflexivity].
    apply elem_of_availablePrices. split; [simpl; lia|reflexivity].
  - destruct Hc as [Hc _]; [split; reflexivity|].
    cbv zeta. rewrite Hc. clear Hc.
    apply list_elem_of_In in Hlo, Hhi. vm_compute in Hlo, Hhi, Hn.
    destruct Hn as [Hn1 Hn2].
    destruct Hlo as [<-|[<-|[]]]; [|discriminate Hn1].
    destruct Hhi as [<-|[<-|[]]]; [discriminate Hn2|].
    split; reflexivity.
Defined.

(** The worked examples of the interpolation: {3: 300, 5: 500} at 4 nights,
    {2: 200, 7: 700} at 5 nights, and a table with more distant points. *)
Example interpolation_3_5_at_4 :
  let r := calculateDynamicPriceLabelled (listingOf [(3, 300%Q); (5, 500%Q)] None) 5 in
  (r.1 == 400)%Q ∧ r.2 = Interpolated.
Proof. by vm_compute. Qed.

Example interpolation_2_7_at_5 :
  let r := calculateDynamicPriceLabelled (listingOf [(2, 200%Q); (7, 700%Q)] None) 6 in
  (r.1 == 500)%Q ∧ r.2 = Interpolated.
Proof. by vm_compute. Qed.

Example interpolation_ignores_distant_points :
  let r := calculateDynamicPriceLabelled
             (listingOf [(2, 1000%Q); (3, 300%Q); (5, 500%Q); (7, 90%Q)] None) 5 in
  (r.1 == 400)%Q ∧ r.2 = Interpolated.
Proof. by vm_compute. Qed.

(** ** Pricing: the closest available price *)

(** C1, as the code has it.  For a night count in 2..7 with no rate of its
    own and all known rates strictly on one side: when two or more rates
    are known, the known rate with the closest night count is returned,
    from the closest-price branch; when fewer than two are known,
    interpolatePricing returns 0 and the result is the final fallback. *)
Theorem nearest_known_rate_one_side (listing : Listing) (days : Z) :
  let t := nightsCountOf days in
  let available := availablePrices listing in
  2 ≤ t ≤ 7 → noExactRate listing t →
  (∀ p, p ∈ available → nights p < t) ∨ (∀ p, p ∈ available → t < nights p) →
  ((2 ≤ length available)%nat →
   ∃ c, c ∈ available ∧
     (∀ p, p ∈ available → Z.abs (nights c - t) ≤ Z.abs (nights p - t)) ∧
     (∀ p, p ∈ available →
        Z.abs (nights p - t) = Z.abs (nights c - t) → nights c ≤ nights p) ∧
     interpolatePricingLabelled listing t = (price c, ClosestAvailable) ∧
     calculateDynamicPriceLabelled listing days = (price c, NearestNeighbor) ∧
     calculateDynamicPrice listing days = price c) ∧
  ((length available < 2)%nat →
   interpolatePricingLabelled listing t = (0%Q, TooFewPoints) ∧
   calculateDynamicPriceLabelled listing days = startingFallbackLabelled listing).
Proof.
  intros t available Ht Hm Hside. split; intros Hlen.
  - destruct (closestOf available t) as [c|] eqn:Ec.
    2: { apply head_sortByKey_None in Ec. rewrite Ec in Hlen. simpl in Hlen. lia. }
    pose proof (closestOf_Some _ _ _ Ec) as [Hc Hleast].
    assert (interpolatePricingLabelled listing t = (price c, ClosestAvailable)) as E.
    { unfold interpolatePricingLabelled. fold available.
      replace (length available <? 2)%nat with false by (symmetry; apply Nat.ltb_ge; lia).
      destruct Hside as [Hbelow|Habove].
      - assert (higherOf available t = None) as ->.
        { apply higherOf_None. intros p Hp. specialize (Hbelow p Hp). lia. }
        rewrite Ec. by destruct (lowerOf available t).
      - assert (lowerOf available t = None) as ->.
        { apply lowerOf_None. intros p Hp. specialize (Habove p Hp). lia. }
        by rewrite Ec. }
    assert (calculateDynamicPriceLabelled listing days = (price c, NearestNeighbor)) as E'.
    { rewrite inside_range_noExactRate by done. fold t. rewrite E. simpl.
      by rewrite (proj2 (Qpositive_spec _)) by by eapply availablePrices_positive. }
    exists c. split_and!; [done..| |done|done|].
    + intros p Hp Habs.
      destruct Hside as [Hs|Hs]; pose proof (Hs p Hp); pose proof (Hs c Hc); lia.
    + by rewrite <-calculateDynamicPriceLabelled_fst, E'.
  - assert (interpolatePricingLabelled listing t = (0%Q, TooFewPoints)) as E.
    { unfold interpolatePricingLabelled. fold available.
      by replace (length available <? 2)%nat with true by (symmetry; apply Nat.ltb_lt; lia). }
    split; [done|]. rewrite inside_range_noExactRate by done. fold t. by rewrite E.
Qed.

Lemma nearest_known_rate_one_side_witness :
  ∃ c, c ∈ availablePrices (listingOf [(2, 200%Q); (3, 250%Q)] None) ∧
    calculateDynamicPriceLabelled (listingOf [(2, 200%Q); (3, 250%Q)] None) 6
      = (price c, NearestNeighbor).
Proof.
  destruct (nearest_known_rate_one_side (listingOf [(2, 200%Q); (3, 250%Q)] None) 6)
    as [Hnear _].
  - vm_compute. split; discriminate.
  - split; reflexivity.
  - left. intros p Hp. apply elem_of_availablePrices in Hp as [Hn Hp].
    change (nightsCountOf 6) with 5.
    assert (nights p ≠ 5); [|assert (nights p ≠ 6); [|assert (nights p ≠ 7); [|lia]]].
    all: intros Heq; rewrite Heq in Hp; vm_compute in Hp; discriminate.
  - destruct Hnear as (c & Hc & _ & _ & _ & E & _); [vm_compute; lia|].
    exists c. by split.
Defined.

Example nearest_of_2_3_at_5 :
  calculateDynamicPriceLabelled (listingOf [(2, 200%Q); (3, 250%Q)] None) 6
    = (250%Q, NearestNeighbor).
Proof. reflexivity. Qed.

(** C1 as stated fails.  With the single rate {2: 200} and a target of 5
    nights, interpolatePricing has fewer than two points and returns 0, so
    the result is the final fallback, not 200; and with all rates on one
    side of a target outside 2..7 the closest rate is not returned either. *)
Lemma single_rate_is_not_returned :
  let listing := listingOf [(2, 200%Q)] None in
  nightsCountOf 6 = 5 ∧
  availablePrices listing = [{| nights := 2; price := 200 |}] ∧
  interpolatePricingLabelled listing 5 = (0%Q, TooFewPoints) ∧
  calculateDynamicPriceLabelled listing 6 = (0%Q, Unavailable) ∧
  calculateDynamicPriceLabelled (listingOf [(2, 200%Q)] (Some 150%Q)) 6
    = (150%Q, StartingPriceFallback) ∧
  calculateDynamicPriceLabelled (listingOf [(2, 200%Q); (7, 700%Q)] None) 9
    = (0%Q, Unavailable).
Proof. by vm_compute. Qed.

(** ** Pricing: a rate of zero or less is a missing rate *)

Lemma priceFieldName_inj (m n : Z) :
  2 ≤ m ≤ 7 → 2 ≤ n ≤ 7 → priceFieldName m = priceFieldName n → m = n.
Proof. intros Hm Hn. night_cases m; night_cases n; by vm_compute. Qed.

Lemma emojiFieldName_inj (m n : Z) :
  2 ≤ m ≤ 7 → 2 ≤ n ≤ 7 → emojiFieldName m = emojiFieldName n → m = n.
Proof. intros Hm Hn. night_cases m; night_cases n; by vm_compute. Qed.

Lemma priceFieldName_not_emoji (m n : Z) : priceFieldName m ≠ emojiFieldName n.
Proof. unfold priceFieldName, emojiFieldName. simpl. discriminate. Qed.

Lemma priceFieldName_not_starting (n : Z) : priceFieldName n ≠ "Starting nightly price".
Proof. unfold priceFieldName. simpl. discriminate. Qed.

Lemma emojiFieldName_not_starting (n : Z) : emojiFieldName n ≠ "Starting nightly price".
Proof. unfold emojiFieldName. simpl. discriminate. Qed.

Lemma field_withoutField_ne (listing : Listing) (key name : string) :
  name ≠ key → field (withoutField key listing) name = field listing name.
Proof. intros Hne. unfold field, withoutField. simpl. by rewrite lookup_delete_ne. Qed.

Lemma field_withoutField_eq (listing : Listing) (key : string) :
  field (withoutField key listing) key = Js.Undefined.
Proof. unfold field, withoutField. simpl. by rewrite lookup_delete_eq. Qed.

Lemma startingFallbackLabelled_withoutField (listing : Listing) (key : string) (n : Z) :
  key = priceFieldName n ∨ key = emojiFieldName n →
  startingFallbackLabelled (withoutField key listing) = startingFallbackLabelled listing.
Proof.
  intros Hk. unfold startingFallbackLabelled, startingPriceRaw.
  rewrite field_withoutField_ne; [done|].
  destruct Hk as [->| ->]; intros E; symmetry in E;
    [by apply priceFieldName_not_starting in E|by apply emojiFieldName_not_starting in E].
Qed.

Section ZeroAsMissing.
Context (listing : Listing) (key : string) (q : Q).
Hypothesis Hkey : fields listing !! key = Some (Js.Num q).
Hypothesis Hq : (q <= 0)%Q.

Lemma validPrice_withoutField (name : string) :
  Js.validPrice (field (withoutField key listing) name)
  = Js.validPrice (field listing name).
Proof using Hkey Hq.
  destruct (decide (name = key)) as [->|Hne]; [|by rewrite field_withoutField_ne].
  rewrite field_withoutField_eq. unfold field at 1. rewrite Hkey. simpl.
  symmetry. apply validPrice_None. by intros ? [= <-].
Qed.

Lemma noExactRate_withoutField (n : Z) :
  noExactRate listing n → noExactRate (withoutField key listing) n.
Proof using Hkey Hq. unfold noExactRate. by rewrite !validPrice_withoutField. Qed.

Lemma pricePointAt_withoutField (n m : Z) :
  2 ≤ n ≤ 7 → 2 ≤ m ≤ 7 →
  key = priceFieldName n ∨ key = emojiFieldName n →
  noExactRate listing n →
  pricePointAt (withoutField key listing) m = pricePointAt listing m.
Proof using Hkey Hq.
  intros Hn Hm Hk Hmiss. destruct (decide (m = n)) as [->|Hne].
  - rewrite !pricePointAt_noExactRate; auto using noExactRate_withoutField.
  - unfold pricePointAt. rewrite !field_withoutField_ne; [done|..].
    + destruct Hk as [->| ->]; [|intros E; by apply emojiFieldName_inj in E].
      intros E. symmetry in E. by apply priceFieldName_not_emoji in E.
    + destruct Hk as [->| ->]; [intros E; by apply priceFieldName_inj in E|].
      apply priceFieldName_not_emoji.
Qed.

Lemma availablePrices_withoutField (n : Z) :
  2 ≤ n ≤ 7 → key = priceFieldName n ∨ key = emojiFieldName n →
  noExactRate listing n →
  availablePrices (withoutField key listing) = availablePrices listing.
Proof using Hkey Hq.
  intros Hn Hk Hmiss. unfold availablePrices. simpl.
  by rewrite !(pricePointAt_withoutField n) by (done || lia).
Qed.

End ZeroAsMissing.

Lemma exact_is_positive (listing : Listing) (days : Z) (a : Q) :
  calculateDynamicPriceLabelled listing days = (a, Exact) → (0 < a)%Q.
Proof.
  unfold calculateDynamicPriceLabelled, startingFallbackLabelled.
  destruct (interpolatePricingLabelled listing _) as [i []]; simpl.
  all: repeat case_match; intros [= <-]; simplify_eq.
  all: match goal with H : Js.validPrice _ = Some _ |- _ =>
         by apply validPrice_Some in H as [_ ?] end.
Qed.

(** C7.  A rate column for the target night count, in either spelling, that
    holds 0 or a negative number is never returned as an exact rate, and the
    result is the one the listing without that column gives. *)
Theorem zero_rate_is_missing (listing : Listing) (days : Z) (key : string) (q : Q) :
  let t := nightsCountOf days in
  key = priceFieldName t ∨ key = emojiFieldName t →
  fields listing !! key = Some (Js.Num q) →
  (q <= 0)%Q →
  calculateDynamicPriceLabelled listing days ≠ (q, Exact) ∧
  (∀ a, calculateDynamicPriceLabelled listing days = (a, Exact) → (0 < a)%Q) ∧
  calculateDynamicPriceLabelled listing days
    = calculateDynamicPriceLabelled (withoutField key listing) days ∧
  calculateDynamicPrice listing days
    = calculateDynamicPrice (withoutField key listing) days.
Proof.
  intros t Hk Hkey Hq.
  assert (calculateDynamicPriceLabelled listing days
          = calculateDynamicPriceLabelled (withoutField key listing) days) as E.
  { destruct (decide (2 ≤ t ≤ 7)) as [Ht|Ht].
    - unfold calculateDynamicPriceLabelled. fold t.
      rewrite (proj2 (in_range_spec _) Ht), priceFieldMap_lookup by done.
      rewrite !(validPrice_withoutField listing key q) by done.
      destruct (Js.validPrice (field listing (priceFieldName t))) eqn:E1; [done|].
      destruct (Js.validPrice (field listing (emojiFieldName t))) eqn:E2; [done|].
      unfold interpolatePricingLabelled.
      rewrite (availablePrices_withoutField listing key q Hkey Hq t) by done.
      by rewrite (startingFallbackLabelled_withoutField listing key t).
    - rewrite !outside_range by done.
      by rewrite (startingFallbackLabelled_withoutField listing key t). }
  split_and!; [|apply exact_is_positive|done|].
  - intros Hex%exact_is_positive. by apply (Qlt_not_le _ _ Hex).
  - by rewrite <-!calculateDynamicPriceLabelled_fst, E.
Qed.

Lemma zero_rate_is_missing_witness :
  calculateDynamicPriceLabelled (listingOf [(3, 300%Q); (4, 0%Q); (5, 500%Q)] None) 5
    = calculateDynamicPriceLabelled
        (withoutField "Price 4 nights selected"
           (listingOf [(3, 300%Q); (4, 0%Q); (5, 500%Q)] None)) 5.
Proof.
  apply (zero_rate_is_missing
           (listingOf [(3, 300%Q); (4, 0%Q); (5, 500%Q)] None) 5
           "Price 4 nights selected" 0%Q).
  - left. reflexivity.
  - reflexivity.
  - vm_compute. discriminate.
Defined.

Example zero_rate_interpolated :
  let r := calculateDynamicPriceLabelled
             (listingOf [(3, 300%Q); (4, 0%Q); (5, 500%Q)] None) 5 in
  (r.1 == 400)%Q ∧ r.2 = Interpolated.
Proof. by vm_compute. Qed.

(** ** Amenities *)

Lemma filter_none {A : Type} (P : A → Prop) `{!∀ x, Decision (P x)} (l : list A) :
  (∀ x, x ∈ l → ¬ P x) → filter P l = [].
Proof.
  induction l as [|x l IH]; intros Hall; [done|].
  rewrite filter_cons, decide_False by (apply Hall; left).
  apply IH. intros y Hy. apply Hall. by right.
Qed.

Lemma sortByNumber_perm {A : Type} (key : A → option Z) (l : list A) :
  Js.sortByNumber key l ≡ₚ l.
Proof. unfold Js.sortByNumber. case_match; [apply sortByKey_perm|done]. Qed.

Lemma elem_of_sortByNumber {A : Type} (key : A → option Z) (x : A) (l : list A) :
  x ∈ Js.sortByNumber key l ↔ x ∈ l.
Proof. by rewrite sortByNumber_perm. Qed.

Lemma sortByNumber_defined {A : Type} (key : A → option Z) (l : list A) :
  (∀ x, x ∈ l → is_Some (key x)) →
  Js.sortByNumber key l = Js.sortByKey (λ x, default 0 (key x)) l.
Proof.
  intros Hall. unfold Js.sortByNumber.
  replace (forallb (Js.defined key) l) with true; [done|].
  symmetry. apply forallb_forall. intros x Hx%list_elem_of_In.
  unfold Js.defined. by destruct (Hall x Hx) as [k ->].
Qed.

Lemma aggregate_eq (inUnitIds inBuildingIds : list string) (lookupTable : list Row.t) :
  aggregate inUnitIds inBuildingIds lookupTable
  = Js.sortByNumber Amenity.priority
      (toAmenity inUnitIds <$>
       filter (λ r, Row._id r ∈ inUnitIds ++ inBuildingIds) lookupTable).
Proof.
  unfold aggregate, parseAmenities, fetchAmenityDetails. simpl.
  destruct (inUnitIds ++ inBuildingIds) as [|i ids] eqn:E; [|done].
  rewrite filter_none; [done|]. intros r _. apply not_elem_of_nil.
Qed.

Lemma elem_of_aggregate (inUnitIds inBuildingIds : list string)
    (lookupTable : list Row.t) (a : Amenity.t) :
  a ∈ aggregate inUnitIds inBuildingIds lookupTable ↔
  ∃ r, r ∈ lookupTable ∧ Row._id r ∈ inUnitIds ++ inBuildingIds ∧ a = toAmenity inUnitIds r.
Proof.
  rewrite aggregate_eq, elem_of_sortByNumber, list_elem_of_fmap. split.
  - intros (r & -> & [Hid Hr]%list_elem_of_filter). eauto.
  - intros (r & Hr & Hid & ->). exists r. split; [done|]. by apply list_elem_of_filter.
Qed.

Lemma toAmenity_priority (inUnitIds : list string) (r : Row.t) :
  Amenity.priority (toAmenity inUnitIds r) = priorityOfName (Row.Name r).
Proof. reflexivity. Qed.

Lemma priority_map_range (key : string) (priorityInfo : Info.t) :
  AMENITY_PRIORITY_MAP !! key = Some priorityInfo → 1 ≤ Info.priority priorityInfo ≤ 24.
Proof.
  unfold AMENITY_PRIORITY_MAP. intros Hin%elem_of_list_to_map_2.
  revert Hin. apply (proj1 (Forall_forall (λ p, 1 ≤ Info.priority p.2 ≤ 24) _)).
  repeat (constructor; [simpl; lia|]). constructor.
Qed.

Lemma count_id_fmap_filter (inUnitIds ids : list string) (i : string) (table : list Row.t) :
  i ∈ ids →
  length (filter (λ a, Amenity.id a = i)
            (toAmenity inUnitIds <$> filter (λ r, Row._id r ∈ ids) table))
  = length (filter (λ r, Row._id r = i) table).
Proof.
  intros Hi. induction table as [|r table IH]; [done|].
  rewrite !filter_cons. destruct (decide (Row._id r = i)) as [E|E].
  - rewrite decide_True by by rewrite E.
    rewrite fmap_cons, filter_cons, decide_True by done. simpl. by rewrite IH.
  - destruct (decide (Row._id r ∈ ids)); [|done].
    by rewrite fmap_cons, filter_cons, decide_False.
Qed.

Lemma sortByKey_fmap {A B : Type} (key : B → Z) (f : A → B) (l : list A) :
  Js.sortByKey key (f <$> l) = f <$> Js.sortByKey (key ∘ f) l.
Proof.
  induction l as [|x l IH]; [done|].
  rewrite fmap_cons. cbn [Js.sortByKey]. rewrite IH.
  generalize (Js.sortByKey (key ∘ f) l). intros s.
  induction s as [|y s IHs]; [done|].
  rewrite fmap_cons. cbn [Js.insertByKey]. unfold compose at 1 2.
  destruct (key (f x) <=? key (f y)); [done|]. by rewrite fmap_cons, IHs.
Qed.

Lemma sortByKey_ext {A : Type} (key key' : A → Z) (l : list A) :
  (∀ x, key x = key' x) → Js.sortByKey key l = Js.sortByKey key' l.
Proof.
  intros Hk. induction l as [|x l IH]; [done|]. simpl. rewrite IH.
  generalize (Js.sortByKey key' l). intros s.
  induction s as [|y s IHs]; [done|]. simpl. by rewrite !Hk, IHs.
Qed.

(** C4, as the code has it.  The output holds exactly the amenities of the
    lookup-table rows whose id was requested: an id without a row in the
    table is left out, and no output entry carries it. *)
Theorem unknown_ids_are_left_out (inUnitIds inBuildingIds : list string)
    (lookupTable : list Row.t) (i : string) :
  i ∈ inUnitIds ++ inBuildingIds →
  (∀ r, r ∈ lookupTable → Row._id r ≠ i) →
  (i ∉ Amenity.id <$> aggregate inUnitIds inBuildingIds lookupTable) ∧
  ∀ a, a ∈ aggregate inUnitIds inBuildingIds lookupTable →
    ∃ r, r ∈ lookupTable ∧ Row._id r ∈ inUnitIds ++ inBuildingIds ∧
         Amenity.id a = Row._id r ∧ Amenity.name a = Row.Name r.
Proof.
  intros _ Hno. split.
  - intros (a & -> & (r & Hr & _ & ->)%elem_of_aggregate)%list_elem_of_fmap.
    by apply (Hno r).
  - intros a (r & Hr & Hid & ->)%elem_of_aggregate. by exists r.
Qed.

Lemma unknown_ids_are_left_out_witness :
  "x" ∉ Amenity.id <$> aggregate ["w"; "x"] [] [row "w" "WiFi"].
Proof.
  apply (unknown_ids_are_left_out ["w"; "x"] [] [row "w" "WiFi"] "x").
  - set_unfold. auto.
  - intros r Hr. apply list_elem_of_singleton in Hr as ->. discriminate.
Defined.

(** C4 as stated fails: the id "x" has no row in the lookup table and the
    output has the single entry for "w". *)
Lemma unknown_id_is_omitted :
  Amenity.id <$> aggregate ["w"; "x"] [] [row "w" "WiFi"] = ["w"] ∧
  aggregate ["x"] [] [] = [] ∧
  aggregate ["x"] [] [row "w" "WiFi"] = [].
Proof. by vm_compute. Qed.

(** C9, as the code has it.  An id listed both in-unit and in-building that
    has exactly one row in the lookup table appears exactly once in the
    output, tagged in-unit. *)
Theorem shared_id_once_in_unit (inUnitIds inBuildingIds : list string)
    (lookupTable : list Row.t) (i : string) :
  i ∈ inUnitIds → i ∈ inBuildingIds →
  length (filter (λ r, Row._id r = i) lookupTable) = 1%nat →
  length (filter (λ a, Amenity.id a = i)
            (aggregate inUnitIds inBuildingIds lookupTable)) = 1%nat ∧
  ∀ a, a ∈ aggregate inUnitIds inBuildingIds lookupTable →
    Amenity.id a = i → Amenity.category a = InUnit.
Proof.
  intros Hu Hb Hone. split.
  - rewrite aggregate_eq, sortByNumber_perm, count_id_fmap_filter; [done|].
    apply elem_of_app. by left.
  - intros a (r & _ & _ & ->)%elem_of_aggregate. simpl. intros ->.
    by rewrite bool_decide_eq_true_2.
Qed.

Lemma shared_id_once_in_unit_witness :
  length (filter (λ a, Amenity.id a = "w")
            (aggregate ["w"] ["w"; "g"] [row "g" "Gym"; row "w" "WiFi"])) = 1%nat ∧
  ∀ a, a ∈ aggregate ["w"] ["w"; "g"] [row "g" "Gym"; row "w" "WiFi"] →
    Amenity.id a = "w" → Amenity.category a = InUnit.
Proof.
  apply (shared_id_once_in_unit ["w"] ["w"; "g"] [row "g" "Gym"; row "w" "WiFi"] "w").
  - set_unfold. auto.
  - set_unfold. auto.
  - reflexivity.
Defined.

(** C9 as stated fails: an id in both sets without a row in the lookup
    table appears zero times. *)
Lemma shared_id_without_row_is_absent :
  length (filter (λ a, Amenity.id a = "x") (aggregate ["x"] ["x"] [row "w" "WiFi"])) = 0%nat.
Proof. by vm_compute. Qed.

Lemma filter_all {A : Type} (P : A → Prop) `{!∀ x, Decision (P x)} (l : list A) :
  (∀ x, x ∈ l → P x) → filter P l = l.
Proof.
  induction l as [|x l IH]; intros Hall; [done|].
  rewrite filter_cons, decide_True by (apply Hall; left).
  f_equal. apply IH. intros y Hy. apply Hall. by right.
Qed.

Lemma filter_ext_in {A : Type} (P Q : A → Prop)
    `{!∀ x, Decision (P x)} `{!∀ x, Decision (Q x)} (l : list A) :
  (∀ x, x ∈ l → P x ↔ Q x) → filter P l = filter Q l.
Proof.
  induction l as [|x l IH]; intros Hall; [done|].
  rewrite !filter_cons. rewrite IH by (intros y Hy; apply Hall; by right).
  destruct (decide (P x)) as [HP|HP], (decide (Q x)) as [HQ|HQ]; try done.
  - destruct HQ. apply Hall; [left|done].
  - destruct HP. apply Hall; [left|done].
Qed.

Lemma StronglySorted_fmap_key {A : Type} (key : A → Z) (l : list A) :
  StronglySorted (Js.ascending key) l → StronglySorted Z.le (key <$> l).
Proof.
  induction 1 as [|x l Hl IH Hx]; [constructor|].
  rewrite fmap_cons. constructor; [done|]. by apply Forall_fmap.
Qed.

(** *** Inherited members and the lower-cased name *)

Lemma inherited_spec (key : string) : inherited key = true ↔ key ∈ objectPrototypeKeys.
Proof. unfold inherited. apply bool_decide_eq_true. Qed.

Lemma inherited_not_own (key : string) :
  inherited key = true → AMENITY_PRIORITY_MAP !! key = None.
Proof.
  intros Hin%inherited_spec. unfold objectPrototypeKeys in Hin.
  repeat (apply elem_of_cons in Hin as [->|Hin]; [by vm_compute|]).
  by apply not_elem_of_nil in Hin.
Qed.

Lemma priorityOfName_is_Some (name : option string) :
  is_Some (priorityOfName name) ↔ inherited (toLowerCase (default "" name)) = false.
Proof.
  unfold priorityOfName, priorityInfoOf.
  destruct (AMENITY_PRIORITY_MAP !! _) as [entry|] eqn:E; simpl.
  - split; [intros _|by eauto].
    destruct (inherited _) eqn:Hi; [|done].
    apply inherited_not_own in Hi. congruence.
  - destruct (inherited _); simpl; split; (done || eauto || by intros []).
Qed.

Lemma lowerChar_not_upper (c : ascii) : isUpperAscii (lowerChar c) = false.
Proof. by destruct c as [[] [] [] [] [] [] [] []]. Qed.

Lemma toLowerCase_cons (c : ascii) (s : string) :
  toLowerCase (String c s)
  = match s with
    | String c2 (String c3 rest) =>
        if isKelvinSign c c2 c3 then String "k" (toLowerCase rest)
        else String (lowerChar c) (toLowerCase s)
    | _ => String (lowerChar c) (toLowerCase s)
    end.
Proof. by destruct s as [|c2 [|c3 rest]]. Qed.

Lemma toLowerCase_no_upper (s : string) : hasUpperAscii (toLowerCase s) = false.
Proof.
  assert (∀ n s, (String.length s ≤ n)%nat → hasUpperAscii (toLowerCase s) = false) as H.
  { clear s. induction n as [|n IH]; intros [|c s] Hlen; simpl in Hlen; try done; [lia|].
    rewrite toLowerCase_cons.
    assert (hasUpperAscii (String (lowerChar c) (toLowerCase s)) = false) as Hplain.
    { cbn [hasUpperAscii]. rewrite lowerChar_not_upper, IH by lia. done. }
    destruct s as [|c2 [|c3 rest]]; [done..|].
    destruct (isKelvinSign c c2 c3); [|done].
    cbn [hasUpperAscii]. rewrite IH by (simpl in Hlen; lia). done. }
  by apply (H (String.length s)).
Qed.

(** After lower-casing, the only inherited members a name can hit are
    [constructor] and [__proto__]. *)
Lemma inherited_toLowerCase (s : string) :
  inherited (toLowerCase s) = true ↔
  toLowerCase s = "constructor" ∨ toLowerCase s = "__proto__".
Proof.
  rewrite inherited_spec. pose proof (toLowerCase_no_upper s) as Hup.
  unfold objectPrototypeKeys. split.
  - intros Hin.
    apply elem_of_cons in Hin as [->|Hin]; [by left|].
    apply elem_of_cons in Hin as [->|Hin]; [by right|].
    repeat (apply elem_of_cons in Hin as [Heq|Hin];
            [rewrite Heq in Hup; by vm_compute in Hup|]).
    by apply not_elem_of_nil in Hin.
  - intros [->| ->]; set_unfold; auto.
Qed.

Lemma ranked_priority (inUnitIds : list string) (r : Row.t) :
  ranked r ↔ is_Some (Amenity.priority (toAmenity inUnitIds r)).
Proof. rewrite toAmenity_priority, priorityOfName_is_Some. done. Qed.

Lemma names_of_aggregate (inUnitIds inBuildingIds : list string) (rows : list Row.t) :
  (∀ r, r ∈ rows → Row._id r ∈ inUnitIds ++ inBuildingIds) →
  (∀ r, r ∈ rows → ranked r) →
  Amenity.name <$> aggregate inUnitIds inBuildingIds rows
  = Row.Name <$> Js.sortByKey (λ r, default 0 (priorityOfName (Row.Name r))) rows.
Proof.
  intros Hall Hranked. rewrite aggregate_eq, filter_all by done.
  rewrite sortByNumber_defined.
  - by rewrite sortByKey_fmap, <-list_fmap_compose.
  - intros a (r & -> & Hr)%list_elem_of_fmap. by apply ranked_priority, Hranked.
Qed.

(** C8, as the code has it.  For every input in which no requested row has
    a name that lower-cases to a member every object inherits
    ([constructor], [__proto__]): each output entry is ranked by its name,
    lower-cased and not trimmed, in the priority map, 999 when the map has
    no such name and a rank below 999 otherwise; the ranks of the output
    are in ascending order; the output is a rearrangement of the amenities
    found, and entries of one rank keep the order they came in.  Rows
    named Closet, WiFi and Unknown-X come out as WiFi, Closet, Unknown-X in
    whatever order the rows and the ids are given. *)
Theorem amenities_ranked_by_lowercased_name (inUnitIds inBuildingIds : list string)
    (lookupTable : list Row.t) :
  let out := aggregate inUnitIds inBuildingIds lookupTable in
  let found :=
    toAmenity inUnitIds <$>
    filter (λ r, Row._id r ∈ inUnitIds ++ inBuildingIds) lookupTable in
  (∀ r, r ∈ lookupTable → Row._id r ∈ inUnitIds ++ inBuildingIds →
        toLowerCase (default "" (Row.Name r)) ≠ "constructor" ∧
        toLowerCase (default "" (Row.Name r)) ≠ "__proto__") →
  (∀ a, a ∈ out →
     Amenity.priority a = priorityOfName (Amenity.name a) ∧
     match AMENITY_PRIORITY_MAP !! toLowerCase (default "" (Amenity.name a)) with
     | Some priorityInfo =>
         Amenity.priority a = Some (Info.priority priorityInfo) ∧
         Info.priority priorityInfo < 999
     | None => Amenity.priority a = Some 999
     end) ∧
  (∃ ranks, Amenity.priority <$> out = Some <$> ranks ∧ StronglySorted Z.le ranks) ∧
  out ≡ₚ found ∧
  (∀ k, filter (λ a, Amenity.priority a = Some k) out
        = filter (λ a, Amenity.priority a = Some k) found) ∧
  (∀ rows : list Row.t,
     rows ≡ₚ [row "c" "Closet"; row "w" "WiFi"; row "u" "Unknown-X"] →
     (∀ r, r ∈ rows → Row._id r ∈ inUnitIds ++ inBuildingIds) →
     Amenity.name <$> aggregate inUnitIds inBuildingIds rows
     = [Some "WiFi"; Some "Closet"; Some "Unknown-X"]).
Proof.
  intros out found Hnames.
  assert (∀ a, a ∈ found → is_Some (Amenity.priority a)) as Hdef.
  { intros a (r & -> & [Hid Hr]%list_elem_of_filter)%list_elem_of_fmap.
    apply ranked_priority. unfold ranked.
    destruct (inherited _) eqn:Hi; [|done].
    apply inherited_toLowerCase in Hi. destruct (Hnames r Hr Hid). tauto. }
  assert (out = Js.sortByKey (λ a, default 0 (Amenity.priority a)) found) as Hout.
  { unfold out. by rewrite aggregate_eq, sortByNumber_defined. }
  assert (∀ a, a ∈ out → is_Some (Amenity.priority a)) as Hdef'.
  { intros a Ha. apply Hdef. by rewrite Hout, elem_of_sortByKey in Ha. }
  split_and!.
  - intros a Ha. pose proof (Hdef' a Ha) as Hsome.
    apply elem_of_aggregate in Ha as (r & _ & _ & ->).
    split; [apply toAmenity_priority|].
    rewrite toAmenity_priority in Hsome |- *.
    apply priorityOfName_is_Some in Hsome.
    unfold priorityOfName, priorityInfoOf. cbn [Amenity.name toAmenity].
    destruct (AMENITY_PRIORITY_MAP !! _) as [entry|] eqn:E; simpl.
    + split; [done|]. apply priority_map_range in E. lia.
    + cbn [Amenity.name toAmenity] in Hsome. by rewrite Hsome.
  - exists ((λ a, default 0 (Amenity.priority a)) <$> out). split.
    + rewrite <-list_fmap_compose. apply list_fmap_ext. intros _ a Ha%list_elem_of_lookup_2.
      simpl. by destruct (Hdef' a Ha) as [k ->].
    + rewrite Hout. apply StronglySorted_fmap_key, sortByKey_sorted.
  - rewrite Hout. apply sortByKey_perm.
  - intros k.
    rewrite (filter_ext_in _ (λ a, default 0 (Amenity.priority a) = k) out).
    2: { intros a Ha. destruct (Hdef' a Ha) as [k' ->]. simpl. split; congruence. }
    rewrite (filter_ext_in _ (λ a, default 0 (Amenity.priority a) = k) found).
    2: { intros a Ha. destruct (Hdef a Ha) as [k' ->]. simpl. split; congruence. }
    rewrite Hout. apply sortByKey_stable.
  - intros rows Hperm Hall. rewrite names_of_aggregate; [|done|].
    + symmetry in Hperm. apply permutations_Permutation in Hperm.
      vm_compute in Hperm.
      repeat (apply elem_of_cons in Hperm as [->|Hperm]; [by vm_compute|]).
      by apply not_elem_of_nil in Hperm.
    + intros r Hr. rewrite Hperm in Hr.
      repeat (apply elem_of_cons in Hr as [->|Hr]; [by vm_compute|]).
      by apply not_elem_of_nil in Hr.
Qed.

Lemma amenities_ranked_by_lowercased_name_witness :
  Amenity.name <$>
    aggregate ["u"; "c"] ["w"] [row "u" "Unknown-X"; row "c" "Closet"; row "w" "WiFi"]
  = [Some "WiFi"; Some "Closet"; Some "Unknown-X"].
Proof.
  apply (amenities_ranked_by_lowercased_name ["u"; "c"] ["w"]
           [row "u" "Unknown-X"; row "c" "Closet"; row "w" "WiFi"]).
  - intros r Hr _.
    repeat (apply elem_of_cons in Hr as [->|Hr]; [by vm_compute|]).
    by apply not_elem_of_nil in Hr.
  - apply Permutation_cons_append.
  - intros r Hr.
    repeat (apply elem_of_cons in Hr as [->|Hr]; [simpl; set_unfold; auto 6|]).
    by apply not_elem_of_nil in Hr.
Defined.

(** Equal ranks keep their order; the lookup folds case. *)
Example equal_ranks_keep_order :
  Amenity.name <$>
    aggregate ["1"; "2"; "3"; "4"] []
      [row "1" "Sauna"; row "2" "DRYER"; row "3" "Pool"; row "4" "washer"]
  = [Some "DRYER"; Some "washer"; Some "Sauna"; Some "Pool"].
Proof. reflexivity. Qed.

(** C8 as stated fails on trimming: a name with surrounding blanks is not
    found in the priority map, gets rank 999 and sorts after Closet. *)
Lemma untrimmed_name_ranks_last :
  let out := aggregate ["w"; "c"] [] [row "w" " WiFi "; row "c" "Closet"] in
  Amenity.name <$> out = [Some "Closet"; Some " WiFi "] ∧
  Amenity.priority <$> out = [Some 12; Some 999] ∧
  priorityOfName (Some "WiFi") = Some 1.
Proof. by vm_compute. Qed.

(** Among equal ranks the order kept is the one of the rows the lookup
    returns, whatever the order of the ids. *)
Example equal_ranks_follow_the_rows :
  Amenity.name <$> aggregate ["1"; "2"] [] [row "2" "Pool"; row "1" "Sauna"]
  = [Some "Pool"; Some "Sauna"].
Proof. reflexivity. Qed.

(** The inputs the theorem leaves out: a name that lower-cases to an
    inherited member has neither rank nor emoji.  The Kelvin sign folds to
    [k], so a name written with it is found in the map. *)
Example inherited_member_has_no_rank :
  priorityOfName (Some "Constructor") = None ∧
  priorityOfName (Some "__proto__") = None ∧
  priorityOfName (Some "toString") = Some 999 ∧
  Amenity.icon (toAmenity [] (row "x" "Constructor")) = None ∧
  priorityOfName
    (Some (String (ascii_of_nat 226) (String (ascii_of_nat 132)
             (String (ascii_of_nat 170) "ITCHEN")))) = Some 21.
Proof. by vm_compute. Qed.

(** * Further properties of the code *)

(** ** interpolatePricing, branch by branch *)

Lemma interpolatePricingLabelled_few (listing : Listing) (t : Z) :
  (length (availablePrices listing) < 2)%nat →
  interpolatePricingLabelled listing t = (0%Q, TooFewPoints).
Proof.
  intros Hlen. unfold interpolatePricingLabelled.
  by replace (length (availablePrices listing) <? 2)%nat with true
    by (symmetry; apply Nat.ltb_lt; lia).
Qed.

Lemma interpolatePricingLabelled_linear (listing : Listing) (t : Z) (lo hi : PricePoint) :
  lowerOf (availablePrices listing) t = Some lo →
  higherOf (availablePrices listing) t = Some hi →
  interpolatePricingLabelled listing t = (linear lo hi t, LinearInterpolation).
Proof.
  intros Elo Ehi.
  pose proof (lowerOf_Some _ _ _ Elo) as (Hlo & Hlot & _).
  pose proof (higherOf_Some _ _ _ Ehi) as (Hhi & Hhit & _).
  unfold interpolatePricingLabelled.
  rewrite (two_elements _ lo hi), Elo, Ehi; [done..|]. intros ->. lia.
Qed.

Lemma interpolatePricingLabelled_closest (listing : Listing) (t : Z) :
  (2 ≤ length (availablePrices listing))%nat →
  lowerOf (availablePrices listing) t = None ∨ higherOf (availablePrices listing) t = None →
  ∃ c, closestOf (availablePrices listing) t = Some c ∧
       interpolatePricingLabelled listing t = (price c, ClosestAvailable).
Proof.
  intros Hlen Hnone.
  destruct (closestOf (availablePrices listing) t) as [c|] eqn:Ec.
  2: { apply head_sortByKey_None in Ec. rewrite Ec in Hlen. simpl in Hlen. lia. }
  exists c. split; [done|]. unfold interpolatePricingLabelled.
  replace (length (availablePrices listing) <? 2)%nat with false
    by (symmetry; apply Nat.ltb_ge; lia).
  rewrite Ec. destruct Hnone as [-> | ->]; [done|].
  by destruct (lowerOf (availablePrices listing) t).
Qed.

Lemma linear_between (lo hi : PricePoint) (t : Z) :
  nights lo < t < nights hi →
  ((price lo <= price hi)%Q → (price lo <= linear lo hi t <= price hi)%Q) ∧
  ((price hi <= price lo)%Q → (price hi <= linear lo hi t <= price lo)%Q).
Proof.
  intros [H1 H2]. unfold linear.
  set (a := inject_Z (t - nights lo)). set (b := inject_Z (nights hi - nights lo)).
  assert (0 < a)%Q as Ha.
  { unfold a. change 0%Q with (inject_Z 0). rewrite <-Zlt_Qlt. lia. }
  assert (a < b)%Q as Hab.
  { unfold a, b. rewrite <-Zlt_Qlt. lia. }
  assert (0 < a / b)%Q as Hf0 by (apply Qlt_shift_div_l; lra).
  assert (a / b < 1)%Q as Hf1 by (apply Qlt_shift_div_r; lra).
  set (f := (a / b)%Q) in *. split; intros Hle; split; nra.
Qed.

(** X1.  An exact rate wins: for a night count in 2..7, a price above zero
    in the column [Price n nights selected] is the result; when that column
    has none, a price above zero in the emoji-named column is the result.
    Interpolation and the starting price are not consulted. *)
Theorem exact_rate_precedence (listing : Listing) (days : Z) (q : Q) :
  let t := nightsCountOf days in
  2 ≤ t ≤ 7 → (0 < q)%Q →
  (field listing (priceFieldName t) = Js.Num q →
     calculateDynamicPriceLabelled listing days = (q, Exact) ∧
     calculateDynamicPrice listing days = q) ∧
  (Js.validPrice (field listing (priceFieldName t)) = None →
   field listing (emojiFieldName t) = Js.Num q →
     calculateDynamicPriceLabelled listing days = (q, Exact) ∧
     calculateDynamicPrice listing days = q).
Proof.
  intros t Ht Hq.
  assert (∀ r, calculateDynamicPriceLabelled listing days = r →
               calculateDynamicPrice listing days = r.1) as Hfst.
  { intros r <-. symmetry. apply calculateDynamicPriceLabelled_fst. }
  split.
  - intros Hf.
    assert (calculateDynamicPriceLabelled listing days = (q, Exact)) as E.
    { unfold calculateDynamicPriceLabelled. fold t.
      rewrite (proj2 (in_range_spec _) Ht), priceFieldMap_lookup by done.
      by rewrite (proj2 (validPrice_Some _ q)). }
    split; [done|]. by rewrite (Hfst _ E).
  - intros Hn He.
    assert (calculateDynamicPriceLabelled listing days = (q, Exact)) as E.
    { unfold calculateDynamicPriceLabelled. fold t.
      rewrite (proj2 (in_range_spec _) Ht), priceFieldMap_lookup by done.
      by rewrite Hn, (proj2 (validPrice_Some _ q)). }
    split; [done|]. by rewrite (Hfst _ E).
Qed.

Lemma exact_rate_precedence_witness :
  calculateDynamicPrice
    (mkListing [("Price 3 nights selected", Js.Num 120);
                ("💰Nightly Host Rate for 3 nights", Js.Num 999);
                ("Price 2 nights selected", Js.Num 80);
                ("Starting nightly price", Js.Num 50)] Js.Undefined) 4 = 120%Q.
Proof.
  match goal with |- calculateDynamicPrice ?l _ = _ =>
    destruct (exact_rate_precedence l 4 120%Q) as [H _]
  end.
  - vm_compute. split; discriminate.
  - reflexivity.
  - apply H. reflexivity.
Defined.

(** X2.  Interpolation stays inside the bracket: with a known rate below
    and one above the target, the result of interpolatePricing lies between
    the prices of the nearest known night on each side. *)
Theorem interpolation_within_bracket (listing : Listing) (t : Z) :
  let available := availablePrices listing in
  (∃ p, p ∈ available ∧ nights p < t) →
  (∃ p, p ∈ available ∧ t < nights p) →
  ∃ lo hi,
    lo ∈ available ∧ hi ∈ available ∧ nights lo < t < nights hi ∧
    (∀ p, p ∈ available → nights p ≤ nights lo ∨ nights hi ≤ nights p ∨ nights p = t) ∧
    ((price lo <= price hi)%Q →
       (price lo <= interpolatePricing listing t <= price hi)%Q) ∧
    ((price hi <= price lo)%Q →
       (price hi <= interpolatePricing listing t <= price lo)%Q).
Proof.
  intros available (pl & Hpl & Hlt) (ph & Hph & Hgt).
  destruct (lowerOf available t) as [lo|] eqn:Elo.
  2: { rewrite lowerOf_None in Elo. by destruct (Elo pl Hpl). }
  destruct (higherOf available t) as [hi|] eqn:Ehi.
  2: { rewrite higherOf_None in Ehi. by destruct (Ehi ph Hph). }
  pose proof (lowerOf_Some _ _ _ Elo) as (Hlo & Hlot & Hlon).
  pose proof (higherOf_Some _ _ _ Ehi) as (Hhi & Hhit & Hhin).
  rewrite <-interpolatePricingLabelled_fst,
    (interpolatePricingLabelled_linear _ _ _ _ Elo Ehi). simpl.
  exists lo, hi. split_and!; [done|done|lia|lia| | |].
  - intros p Hp. destruct (Z.lt_trichotomy (nights p) t) as [H|[H|H]]; auto.
  - apply linear_between. lia.
  - apply linear_between. lia.
Qed.

Lemma interpolation_within_bracket_witness :
  ∃ lo hi : PricePoint,
    nights lo < 4 < nights hi ∧
    let r := interpolatePricing (listingOf [(2, 90%Q); (3, 100%Q); (6, 160%Q)] None) 4 in
    ((price lo <= price hi)%Q → (price lo <= r <= price hi)%Q).
Proof.
  destruct (interpolation_within_bracket (listingOf [(2, 90%Q); (3, 100%Q); (6, 160%Q)] None) 4)
    as (lo & hi & _ & _ & Hn & _ & Hle & _).
  - exists {| nights := 3; price := 100 |}. split; [|reflexivity].
    apply elem_of_availablePrices. split; [simpl; lia|reflexivity].
  - exists {| nights := 6; price := 160 |}. split; [|reflexivity].
    apply elem_of_availablePrices. split; [simpl; lia|reflexivity].
  - exists lo, hi. by split.
Defined.

(** X3.  interpolatePricing returns 0 exactly when fewer than two rates are
    known; with two or more known rates its result is above zero, for every
    target night count. *)
Theorem interpolatePricing_zero_iff_few_points (listing : Listing) (t : Z) :
  ((length (availablePrices listing) < 2)%nat → interpolatePricing listing t = 0%Q) ∧
  ((2 ≤ length (availablePrices listing))%nat → (0 < interpolatePricing listing t)%Q).
Proof.
  rewrite <-interpolatePricingLabelled_fst. split; intros Hlen.
  - by rewrite interpolatePricingLabelled_few.
  - destruct (lowerOf (availablePrices listing) t) as [lo|] eqn:Elo;
      [destruct (higherOf (availablePrices listing) t) as [hi|] eqn:Ehi|].
    + rewrite (interpolatePricingLabelled_linear _ _ _ _ Elo Ehi). simpl.
      apply lowerOf_Some in Elo as (Hlo & ? & _).
      apply higherOf_Some in Ehi as (Hhi & ? & _).
      apply linear_positive; [by eapply availablePrices_positive..|lia].
    + destruct (interpolatePricingLabelled_closest listing t Hlen) as (c & Hc & ->);
        [by right|]. simpl.
      apply closestOf_Some in Hc as [Hc _]. by eapply availablePrices_positive.
    + destruct (interpolatePricingLabelled_closest listing t Hlen) as (c & Hc & ->);
        [by left|]. simpl.
      apply closestOf_Some in Hc as [Hc _]. by eapply availablePrices_positive.
Qed.

Lemma interpolatePricing_zero_iff_few_points_witness :
  interpolatePricing (listingOf [(5, 500%Q)] (Some 150%Q)) 5 = 0%Q ∧
  let r := interpolatePricing (listingOf [(5, 500%Q); (7, 600%Q)] None) 9 in (0 < r)%Q.
Proof.
  split.
  - apply (interpolatePricing_zero_iff_few_points _ 5). vm_compute. lia.
  - apply (interpolatePricing_zero_iff_few_points _ 9). vm_compute. lia.
Defined.

(** X4.  Beyond the known nights interpolatePricing does not extrapolate:
    with two or more known rates, a target at or above every known night
    count gets the rate of the highest known night, and a target at or
    below every known night count gets the rate of the lowest one. *)
Theorem interpolatePricing_clamps_to_ends (listing : Listing) (t : Z) :
  let available := availablePrices listing in
  (2 ≤ length available)%nat →
  ((∀ p, p ∈ available → nights p ≤ t) →
   ∃ c, c ∈ available ∧ (∀ p, p ∈ available → nights p ≤ nights c) ∧
        interpolatePricing listing t = price c) ∧
  ((∀ p, p ∈ available → t ≤ nights p) →
   ∃ c, c ∈ available ∧ (∀ p, p ∈ available → nights c ≤ nights p) ∧
        interpolatePricing listing t = price c).
Proof.
  intros available Hlen. rewrite <-interpolatePricingLabelled_fst. split; intros Hside.
  - destruct (interpolatePricingLabelled_closest listing t Hlen) as (c & Hc & ->).
    { right. apply higherOf_None. intros p Hp. specialize (Hside p Hp). lia. }
    apply closestOf_Some in Hc as [Hc Hleast]. exists c. split_and!; [done| |done].
    intros p Hp. specialize (Hleast p Hp).
    pose proof (Hside p Hp). pose proof (Hside c Hc). lia.
  - destruct (interpolatePricingLabelled_closest listing t Hlen) as (c & Hc & ->).
    { left. apply lowerOf_None. intros p Hp. specialize (Hside p Hp). lia. }
    apply closestOf_Some in Hc as [Hc Hleast]. exists c. split_and!; [done| |done].
    intros p Hp. specialize (Hleast p Hp).
    pose proof (Hside p Hp). pose proof (Hside c Hc). lia.
Qed.

Lemma interpolatePricing_clamps_to_ends_witness :
  ∃ c, c ∈ availablePrices (listingOf [(2, 200%Q); (5, 350%Q)] None) ∧
       interpolatePricing (listingOf [(2, 200%Q); (5, 350%Q)] None) 30 = price c.
Proof.
  destruct (interpolatePricing_clamps_to_ends (listingOf [(2, 200%Q); (5, 350%Q)] None) 30)
    as [Hup _].
  - vm_compute. lia.
  - destruct Hup as (c & Hc & _ & E).
    + intros p [Hn _]%elem_of_availablePrices. lia.
    + exists c. by split.
Defined.

Example interpolatePricing_above_and_below :
  interpolatePricing (listingOf [(2, 200%Q); (5, 350%Q)] None) 30 = 350%Q ∧
  interpolatePricing (listingOf [(2, 200%Q); (5, 350%Q)] None) 5 = 350%Q ∧
  interpolatePricing (listingOf [(2, 200%Q); (5, 350%Q)] None) 1 = 200%Q.
Proof. by vm_compute. Qed.

(** ** calculateDynamicPrice over all its branches *)

Lemma calculateDynamicPriceLabelled_cases (listing : Listing) (days : Z) :
  (∃ a s, calculateDynamicPriceLabelled listing days = (a, s) ∧ (0 < a)%Q ∧
          (s = Exact ∨ s = Interpolated ∨ s = NearestNeighbor)) ∨
  (calculateDynamicPriceLabelled listing days = startingFallbackLabelled listing).
Proof.
  unfold calculateDynamicPriceLabelled.
  destruct ((2 <=? _) && (_ <=? 7)); [|by right].
  destruct (Js.validPrice (field listing (default "" _))) as [p|] eqn:E1.
  { left. exists p, Exact. apply validPrice_Some in E1 as [_ ?]. auto. }
  destruct (Js.validPrice (field listing (emojiFieldName _))) as [p|] eqn:E2.
  { left. exists p, Exact. apply validPrice_Some in E2 as [_ ?]. auto. }
  destruct (Js.Qpositive _) eqn:Hp; [|by right].
  apply Qpositive_spec in Hp. left.
  destruct (interpolatePricingLabelled listing _) as [i b] eqn:Ei. simpl in *.
  exists i, (sourceOfBranch b). split_and!; [done..|].
  destruct b; simpl; auto.
  unfold interpolatePricingLabelled in Ei. repeat case_match; simplify_eq.
  all: by apply Qlt_irrefl in Hp.
Qed.

Lemma startingFallbackLabelled_sources (listing : Listing) :
  (startingFallbackLabelled listing).2 = StartingPriceFallback ∨
  (startingFallbackLabelled listing).2 = Unavailable.
Proof. unfold startingFallbackLabelled. repeat case_match; simpl; auto. Qed.

(** X5.  A price taken from the rate table, exact, interpolated or nearest,
    is above zero, and the result of calculateDynamicPrice is never negative
    as long as the starting price is not: for every listing and every day
    count. *)
Theorem calculateDynamicPrice_nonnegative (listing : Listing) (days : Z) (q : Q) :
  startingPriceRaw listing = Js.Num q → (0 <= q)%Q →
  (0 <= calculateDynamicPrice listing days)%Q ∧
  ((calculateDynamicPriceLabelled listing days).2 ≠ StartingPriceFallback →
   (calculateDynamicPriceLabelled listing days).2 ≠ Unavailable →
   (0 < calculateDynamicPrice listing days)%Q).
Proof.
  intros Hraw Hq. rewrite <-calculateDynamicPriceLabelled_fst.
  destruct (calculateDynamicPriceLabelled_cases listing days) as [(a & s & -> & Ha & _)|E].
  - simpl. split; [by apply Qlt_le_weak|done].
  - rewrite E. split.
    + rewrite (startingFallbackLabelled_cases _ _ Hraw).
      destruct (Qeq_bool q 0); simpl; [apply Qle_refl|done].
    + intros H1 H2. by destruct (startingFallbackLabelled_sources listing).
Qed.

Lemma calculateDynamicPrice_nonnegative_witness :
  let r := calculateDynamicPrice
             (listingOf [(2, 200%Q); (4, 0%Q); (7, (-5)%Q)] (Some 150%Q)) 5 in
  (0 <= r)%Q.
Proof.
  apply (calculateDynamicPrice_nonnegative _ 5 150%Q); [reflexivity|].
  vm_compute. discriminate.
Defined.

(** ** getPriceForNights and calculateDynamicPrice *)

(** X6.  When getPriceForNights reports a price above zero for a night
    count in 2..7, calculateDynamicPrice for that many nights returns the
    same price, as an exact rate. *)
Theorem getPriceForNights_positive_is_exact (listing : Listing) (n : Z) (p : Q) :
  2 ≤ n ≤ 7 → getPriceForNights listing n = Js.Num p → (0 < p)%Q →
  nightsCountOf (n + 1) = n ∧
  calculateDynamicPriceLabelled listing (n + 1) = (p, Exact) ∧
  calculateDynamicPrice listing (n + 1) = p.
Proof.
  intros Hn Hg Hp.
  assert (nightsCountOf (n + 1) = n) as Hnc by (unfold nightsCountOf; lia).
  assert (calculateDynamicPriceLabelled listing (n + 1) = (p, Exact)) as E.
  { unfold getPriceForNights in Hg.
    replace ((n <? 2) || (n >? 7)) with false in Hg by lia.
    unfold calculateDynamicPriceLabelled. rewrite Hnc.
    rewrite (proj2 (in_range_spec _) Hn), priceFieldMap_lookup by done.
    destruct (Js.validPrice (Js.or _ _)) as [p'|] eqn:Ev.
    2: { injection Hg as <-. by apply Qlt_irrefl in Hp. }
    injection Hg as ->. unfold Js.or in Ev.
    destruct (Js.truthy (field listing (priceFieldName n))) eqn:Et.
    - by rewrite Ev.
    - unfold Js.validPrice at 1. rewrite Et. simpl. by rewrite Ev. }
  split_and!; [done..|]. by rewrite <-calculateDynamicPriceLabelled_fst, E.
Qed.

Lemma getPriceForNights_positive_is_exact_witness :
  calculateDynamicPrice
    (mkListing [("💰Nightly Host Rate for 3 nights", Js.Num 130);
                ("Starting nightly price", Js.Num 50)] Js.Undefined) (3 + 1) = 130%Q.
Proof.
  match goal with |- calculateDynamicPrice ?l _ = _ =>
    apply (getPriceForNights_positive_is_exact l 3 130%Q)
  end; [lia|reflexivity|reflexivity].
Defined.

(** The converse fails: a negative number in the first spelling hides the
    emoji-named column from getPriceForNights, not from calculateDynamicPrice. *)
Example negative_rate_hides_emoji_rate :
  let listing := mkListing [("Price 3 nights selected", Js.Num (-1));
                            ("💰Nightly Host Rate for 3 nights", Js.Num 130)]
                           Js.Undefined in
  getPriceForNights listing 3 = Js.Num 0 ∧
  calculateDynamicPriceLabelled listing 4 = (130%Q, Exact).
Proof. by vm_compute. Qed.

(** ** The collected price points and the breakdown table *)

Lemma omap_pricePointAt_sorted (listing : Listing) (l : list Z) :
  StronglySorted Z.lt l →
  StronglySorted (λ a b, nights a < nights b) (omap (pricePointAt listing) l) ∧
  Forall (λ p, nights p ∈ l) (omap (pricePointAt listing) l).
Proof.
  induction 1 as [|n l Hl [IHs IHf] Hn]; simpl; [by split; constructor|].
  assert (Forall (λ p, nights p ∈ n :: l) (omap (pricePointAt listing) l)) as Hf.
  { eapply Forall_impl; [exact IHf|]. intros p Hp. by right. }
  destruct (pricePointAt listing n) as [p|] eqn:E; [|done].
  apply pricePointAt_Some in E as [E _]. split.
  - constructor; [done|]. eapply Forall_impl; [exact IHf|].
    intros p' Hp'. simpl in Hp'. rewrite Forall_forall in Hn.
    rewrite E. by apply Hn.
  - constructor; [|done]. rewrite E. by left.
Qed.

(** X7.  The price points interpolatePricing collects are in strictly
    ascending night order (so no night count occurs twice), each for a
    night count in 2..7 with a price above zero, and there are at most six
    of them. *)
Theorem availablePrices_invariant (listing : Listing) :
  StronglySorted (λ a b, nights a < nights b) (availablePrices listing) ∧
  Forall (λ p, 2 ≤ nights p ≤ 7 ∧ (0 < price p)%Q) (availablePrices listing) ∧
  (length (availablePrices listing) ≤ 6)%nat.
Proof.
  split_and!.
  - apply omap_pricePointAt_sorted. repeat (constructor; [|repeat constructor; lia]).
    constructor.
  - apply Forall_forall. intros p Hp. split.
    + by apply elem_of_availablePrices in Hp as [? _].
    + by eapply availablePrices_positive.
  - unfold availablePrices. simpl. repeat case_match; simpl; lia.
Qed.

Lemma omap_fmap_option {A B C : Type} (f : A → option B) (g : B → C) (l : list A) :
  omap (λ x, g <$> f x) l = g <$> omap f l.
Proof.
  induction l as [|x l IH]; [done|]. simpl.
  destruct (f x); simpl; [f_equal|]; apply IH.
Qed.

Lemma pricingTiers_fmap (listing : Listing) :
  pricingTiers listing
  = (λ p, {| Tier.nights := nights p; Tier.perNightPrice := price p;
             Tier.totalPrice := (price p * inject_Z (nights p))%Q |})
      <$> availablePrices listing.
Proof.
  unfold pricingTiers, availablePrices. rewrite <-omap_fmap_option.
  apply list_omap_ext, Forall_Forall2_diag, Forall_forall. intros n _.
  unfold pricingTierAt, pricePointAt. by destruct (Js.validPrice _).
Qed.

(** X8.  The breakdown table of showPricingBreakdown lists exactly the
    price points interpolatePricing works from, in the same order: one row
    per known rate, with that night count, that per-night price, which is
    the one getPriceForNights gives, and the total of price times nights,
    which is above zero. *)
Theorem pricingTiers_are_the_available_prices (listing : Listing) :
  pricingTiers listing
  = (λ p, {| Tier.nights := nights p; Tier.perNightPrice := price p;
             Tier.totalPrice := (price p * inject_Z (nights p))%Q |})
      <$> availablePrices listing ∧
  Forall (λ tier, 2 ≤ Tier.nights tier ≤ 7 ∧ (0 < Tier.perNightPrice tier)%Q ∧
                  (0 < Tier.totalPrice tier)%Q ∧
                  getPriceForNights listing (Tier.nights tier)
                    = Js.Num (Tier.perNightPrice tier))
         (pricingTiers listing).
Proof.
  split; [apply pricingTiers_fmap|]. rewrite pricingTiers_fmap.
  apply Forall_fmap, Forall_forall. intros p Hp. simpl.
  pose proof (availablePrices_positive _ _ Hp) as Hpos.
  apply elem_of_availablePrices in Hp as [Hn Hp]. split_and!; [lia|lia|done| |].
  - assert (0 < inject_Z (nights p))%Q.
    { change 0%Q with (inject_Z 0). rewrite <-Zlt_Qlt. lia. }
    nra.
  - unfold getPriceForNights. replace ((nights p <? 2) || (nights p >? 7)) with false by lia.
    unfold pricePointAt in Hp. destruct (Js.validPrice _) as [q|]; [|done].
    by injection Hp as <-.
Qed.

Lemma getPriceForNights_zero (listing : Listing) (n : Z) :
  2 ≤ n ≤ 7 → getPriceForNights listing n = Js.Num 0 ↔ pricePointAt listing n = None.
Proof.
  intros Hn. unfold getPriceForNights, pricePointAt.
  replace ((n <? 2) || (n >? 7)) with false by lia.
  destruct (Js.validPrice _) as [q|] eqn:E; simpl; [|done].
  split; [|done]. intros [= ->]. apply validPrice_Some in E as [_ E].
  by apply Qlt_irrefl in E.
Qed.

(** X9.  For a listing that is found, showPricingBreakdown raises the
    alert that pricing is not available exactly when getPriceForNights is 0
    for every night count from 2 to 7, whatever the starting price is;
    otherwise it shows the modal, with at least one row. *)
Theorem showPricingBreakdown_outcome (currentListings : option (list (string * Listing)))
    (listingId : string) (listing : Listing) :
  findListing currentListings listingId = Some listing →
  (showPricingBreakdown currentListings listingId = PricingNotAvailable ↔
   ∀ n, 2 ≤ n ≤ 7 → getPriceForNights listing n = Js.Num 0) ∧
  (showPricingBreakdown currentListings listingId ≠ PricingNotAvailable →
   showPricingBreakdown currentListings listingId = Modal (pricingTiers listing) ∧
   pricingTiers listing ≠ []) ∧
  showPricingBreakdown currentListings listingId ≠ ListingNotFound.
Proof.
  intros Hfind. unfold showPricingBreakdown. rewrite Hfind.
  assert (pricingTiers listing = [] ↔
          ∀ n, 2 ≤ n ≤ 7 → getPriceForNights listing n = Js.Num 0) as Hempty.
  { rewrite pricingTiers_fmap. split.
    - intros Hnil%fmap_nil_inv n Hn. apply getPriceForNights_zero; [done|].
      destruct (pricePointAt listing n) as [p|] eqn:E; [|done].
      assert (p ∈ availablePrices listing) as Hp.
      { apply elem_of_availablePrices.
        destruct (pricePointAt_Some _ _ _ E) as [-> _]. by split. }
      rewrite Hnil in Hp. by apply not_elem_of_nil in Hp.
    - intros Hall.
      assert (∀ n, 2 ≤ n ≤ 7 → pricePointAt listing n = None) as Hnone.
      { intros n Hn. apply getPriceForNights_zero; auto. }
      unfold availablePrices. simpl. by rewrite !Hnone by lia. }
  destruct (pricingTiers listing) as [|tier tiers] eqn:E.
  - split_and!; [|done|done]. split; [intros _; by apply Hempty|done].
  - split_and!; [|done|done]. split; [done|].
    intros Hall. by apply Hempty in Hall.
Qed.

Lemma showPricingBreakdown_outcome_witness :
  showPricingBreakdown
    (Some [("a", listingOf [(4, 0%Q)] (Some 150%Q)); ("b", listingOf [(3, 300%Q)] None)])
    "a" ≠ ListingNotFound.
Proof.
  apply (showPricingBreakdown_outcome _ "a" (listingOf [(4, 0%Q)] (Some 150%Q))).
  reflexivity.
Defined.

Example showPricingBreakdown_three_ways :
  let listings :=
    Some [("a", listingOf [(4, 0%Q)] (Some 150%Q)); ("b", listingOf [(3, 300%Q)] None)] in
  showPricingBreakdown listings "a" = PricingNotAvailable ∧
  showPricingBreakdown listings "b"
    = Modal [{| Tier.nights := 3; Tier.perNightPrice := 300; Tier.totalPrice := 900 |}] ∧
  showPricingBreakdown listings "c" = ListingNotFound ∧
  showPricingBreakdown None "a" = ListingNotFound.
Proof. by vm_compute. Qed.

(** ** renderEnhancedPricing *)

Lemma fallback_source_is_fallback (listing : Listing) (days : Z) :
  (calculateDynamicPriceLabelled listing days).2 = StartingPriceFallback ∨
  (calculateDynamicPriceLabelled listing days).2 = Unavailable →
  calculateDynamicPriceLabelled listing days = startingFallbackLabelled listing.
Proof.
  intros Hs.
  destruct (calculateDynamicPriceLabelled_cases listing days)
    as [(a & s & E & _ & Hsrc)|E]; [|done].
  rewrite E in Hs. simpl in Hs.
  destruct Hs as [->| ->], Hsrc as [?|[?|?]]; discriminate.
Qed.

(** X10.  The [Normally from] line compares the price shown with the
    starting price, so it is left out whenever the price shown is the
    starting-price fallback itself: for every night count outside 2..7, and
    inside 2..7 when the table gives neither an exact nor an interpolated
    price. *)
Theorem normally_from_hidden_on_fallback (listing : Listing) (days : Z) :
  ¬ 2 ≤ nightsCountOf days ≤ 7 ∨
  (calculateDynamicPriceLabelled listing days).2 = StartingPriceFallback ∨
  (calculateDynamicPriceLabelled listing days).2 = Unavailable →
  normallyFrom (renderEnhancedPricing listing days) = None ∧
  primaryAmount (renderEnhancedPricing listing days) = startingFallback listing.
Proof.
  intros Hcase.
  assert (calculateDynamicPriceLabelled listing days = startingFallbackLabelled listing) as E.
  { destruct Hcase as [Hout|Hsrc];
      [by apply outside_range|by apply fallback_source_is_fallback]. }
  assert (calculateDynamicPrice listing days = startingFallback listing) as E'.
  { by rewrite <-calculateDynamicPriceLabelled_fst, E, startingFallbackLabelled_fst. }
  split; [|done]. unfold renderEnhancedPricing. cbn [normallyFrom]. rewrite E'.
  unfold startingFallback. destruct (startingPriceRaw_number listing) as [q ->].
  cbn [Js.parseFloat Js.numOrZero].
  assert (Qgtb (Qabs ((if Qeq_bool q 0 then 0 else q) - q)) 1 = false) as ->.
  { unfold Qgtb. apply negb_false_iff, Qle_bool_iff.
    assert ((if Qeq_bool q 0 then 0 else q) - q == 0)%Q as ->.
    { destruct (Qeq_bool q 0) eqn:Hz; [apply Qeq_bool_iff in Hz|]; lra. }
    done. }
  by rewrite andb_false_r.
Qed.

Lemma normally_from_hidden_on_fallback_witness :
  normallyFrom (renderEnhancedPricing (listingOf [(2, 200%Q); (7, 700%Q)] (Some 150%Q)) 9)
  = None.
Proof.
  apply (normally_from_hidden_on_fallback _ 9). left. vm_compute. intros [_ H]. by apply H.
Defined.

Example normally_from_shown :
  let view := renderEnhancedPricing (listingOf [(2, 200%Q); (7, 700%Q)] (Some 150%Q)) 3 in
  labelNights view = 2 ∧ labelPlural view = true ∧
  primaryAmount view = 200%Q ∧ normallyFrom view = Some 150%Q.
Proof. by vm_compute. Qed.

(** ** parseAmenities against any client *)

Lemma parseAmenities_eq (api : option SupabaseAPI) (inUnit inBuilding : AmenityField) :
  parseAmenities api inUnit inBuilding
  = Js.sortByNumber Amenity.priority
      (toAmenity (parseJson inUnit) <$>
       fetchAmenityDetails api (parseJson inUnit ++ parseJson inBuilding)).
Proof.
  unfold parseAmenities. by destruct (parseJson inUnit ++ parseJson inBuilding).
Qed.

Lemma ranked_spec (r : Row.t) :
  ranked r ↔
  toLowerCase (default "" (Row.Name r)) ≠ "constructor" ∧
  toLowerCase (default "" (Row.Name r)) ≠ "__proto__".
Proof.
  unfold ranked. pose proof (inherited_toLowerCase (default "" (Row.Name r))) as H.
  destruct (inherited _).
  - split; [done|]. intros [H1 H2]. destruct (proj1 H eq_refl); done.
  - split; [|done]. intros _.
    split; intros E; [by pose proof (proj2 H (or_introl E))
                     |by pose proof (proj2 H (or_intror E))].
Qed.

Lemma ranked_rows_sorted (inUnitIds : list string) (rows : list Row.t) :
  (∀ r, r ∈ rows → ranked r) →
  let out := Js.sortByNumber Amenity.priority (toAmenity inUnitIds <$> rows) in
  out = Js.sortByKey (λ a, default 0 (Amenity.priority a)) (toAmenity inUnitIds <$> rows) ∧
  (∀ a, a ∈ out → is_Some (Amenity.priority a)) ∧
  StronglySorted (Js.ascending (λ a, default 0 (Amenity.priority a))) out.
Proof.
  intros Hranked out.
  assert (∀ a, a ∈ toAmenity inUnitIds <$> rows → is_Some (Amenity.priority a)) as Hdef.
  { intros a (r & -> & Hr)%list_elem_of_fmap. by apply ranked_priority, Hranked. }
  assert (out = Js.sortByKey (λ a, default 0 (Amenity.priority a))
                  (toAmenity inUnitIds <$> rows)) as Hout.
  { unfold out. by rewrite sortByNumber_defined. }
  split_and!; [done| |].
  - intros a Ha. apply Hdef. by rewrite Hout, elem_of_sortByKey in Ha.
  - rewrite Hout. apply sortByKey_sorted.
Qed.

(** X11.  For array arguments: without ids, or when the lookup fails in any
    of its ways (no API object, API not initialised, query throwing, query
    reporting an error, no data), parseAmenities returns the empty array,
    and renderAmenityIcons then emits the [No amenities listed] placeholder. *)
Theorem parseAmenities_lookup_failure (api : option SupabaseAPI)
    (inUnitIds inBuildingIds : list string) (maxVisible : Z) :
  inUnitIds ++ inBuildingIds = [] ∨ lookupFails api (inUnitIds ++ inBuildingIds) →
  parseAmenities api (IdArray inUnitIds) (IdArray inBuildingIds) = [] ∧
  renderAmenityIcons
    (Some (parseAmenities api (IdArray inUnitIds) (IdArray inBuildingIds))) maxVisible
    = NoAmenitiesListed.
Proof.
  intros Hfail.
  assert (parseAmenities api (IdArray inUnitIds) (IdArray inBuildingIds) = []) as E;
    [|by rewrite E].
  unfold parseAmenities. cbn [parseJson].
  destruct (inUnitIds ++ inBuildingIds) as [|i ids] eqn:Eids; [done|].
  destruct Hfail as [?|Hfail]; [done|].
  unfold fetchAmenityDetails, lookupFails in *.
  destruct api as [api|]; [|done].
  destruct Hfail as [->|Hfail]; [done|].
  destruct (isInitialized api); simpl; [|done].
  by destruct (selectIn api (i :: ids)) as [|[rows|] [e|]].
Qed.

Lemma parseAmenities_lookup_failure_witness :
  parseAmenities
    (Some {| isInitialized := true;
             selectIn ids := Resolved (Some [row "w" "WiFi"]) (Some "timeout") |})
    (IdArray ["w"]) (IdArray []) = [].
Proof.
  match goal with |- parseAmenities ?api (IdArray ?u) (IdArray ?b) = _ =>
    apply (parseAmenities_lookup_failure api u b 6)
  end.
  right. right. exact I.
Defined.

(** X12.  For array arguments and whatever rows the client returns,
    parseAmenities gives one entry per returned row, none dropped and none
    added.  When no returned row has a name that lower-cases to an
    inherited member ([constructor], [__proto__]), the ranks of the entries
    are in ascending order, rows of one rank in the order the client
    returned them. *)
Theorem parseAmenities_one_entry_per_row (api : option SupabaseAPI)
    (inUnitIds inBuildingIds : list string) :
  let rows := fetchAmenityDetails api (inUnitIds ++ inBuildingIds) in
  let out := parseAmenities api (IdArray inUnitIds) (IdArray inBuildingIds) in
  out ≡ₚ toAmenity inUnitIds <$> rows ∧
  length out = length rows ∧
  ((∀ r, r ∈ rows →
      toLowerCase (default "" (Row.Name r)) ≠ "constructor" ∧
      toLowerCase (default "" (Row.Name r)) ≠ "__proto__") →
   (∃ ranks, Amenity.priority <$> out = Some <$> ranks ∧ StronglySorted Z.le ranks) ∧
   Amenity.id <$> out
   = Row._id <$> Js.sortByKey (λ r, default 0 (priorityOfName (Row.Name r))) rows).
Proof.
  intros rows out. unfold out, rows. rewrite parseAmenities_eq. cbn [parseJson].
  split_and!.
  - apply sortByNumber_perm.
  - by rewrite sortByNumber_perm, length_fmap.
  - intros Hnames.
    destruct (ranked_rows_sorted inUnitIds
                (fetchAmenityDetails api (inUnitIds ++ inBuildingIds)))
      as (Hout & Hdef & Hsorted).
    { intros r Hr. by apply ranked_spec, Hnames. }
    split.
    + eexists ((λ a, default 0 (Amenity.priority a)) <$> _). split.
      * rewrite <-list_fmap_compose. apply list_fmap_ext.
        intros _ a Ha%list_elem_of_lookup_2. simpl. by destruct (Hdef a Ha) as [k ->].
      * by apply StronglySorted_fmap_key.
    + rewrite Hout. by rewrite sortByKey_fmap, <-list_fmap_compose.
Qed.

Lemma parseAmenities_one_entry_per_row_witness :
  Amenity.id <$>
    parseAmenities (Some (tableClient [row "c" "Closet"; row "w" "WiFi"]))
      (IdArray ["c"]) (IdArray ["w"])
  = ["w"; "c"].
Proof.
  destruct (parseAmenities_one_entry_per_row
              (Some (tableClient [row "c" "Closet"; row "w" "WiFi"])) ["c"] ["w"])
    as (_ & _ & H).
  destruct H as [_ ->]; [|reflexivity].
  intros r Hr. apply list_elem_of_In in Hr. vm_compute in Hr.
  destruct Hr as [<-|[<-|[]]]; by vm_compute.
Defined.

(** X13.  For array arguments, every entry of the result carries the rank
    and the emoji of its lower-cased name in the priority map, a rank from
    1 to 24; a name the map does not have gets rank 999 and the check
    mark, unless it lower-cases to [constructor] or [__proto__], which
    every object inherits: then rank and emoji are undefined. *)
Theorem amenity_rank_and_icon (api : option SupabaseAPI)
    (inUnitIds inBuildingIds : list string) (a : Amenity.t) :
  a ∈ parseAmenities api (IdArray inUnitIds) (IdArray inBuildingIds) →
  let nameLower := toLowerCase (default "" (Amenity.name a)) in
  match AMENITY_PRIORITY_MAP !! nameLower with
  | Some priorityInfo =>
      Amenity.priority a = Some (Info.priority priorityInfo) ∧
      Amenity.icon a = Some (Info.fallbackIcon priorityInfo) ∧
      1 ≤ Info.priority priorityInfo ≤ 24
  | None =>
      (nameLower = "constructor" ∨ nameLower = "__proto__" →
       Amenity.priority a = None ∧ Amenity.icon a = None) ∧
      (nameLower ≠ "constructor" → nameLower ≠ "__proto__" →
       Amenity.priority a = Some 999 ∧ Amenity.icon a = Some "✓")
  end.
Proof.
  rewrite parseAmenities_eq, elem_of_sortByNumber, list_elem_of_fmap.
  intros (r & -> & _) nameLower. unfold nameLower, toAmenity, priorityInfoOf.
  cbn [Amenity.name Amenity.priority Amenity.icon].
  pose proof (inherited_toLowerCase (default "" (Row.Name r))) as Hinh.
  destruct (AMENITY_PRIORITY_MAP !! _) as [priorityInfo|] eqn:E.
  - simpl. split_and!; [done|done|by eapply priority_map_range..].
  - destruct (inherited _); simpl.
    + split; [done|]. intros H1 H2. destruct (proj1 Hinh eq_refl); done.
    + split; [|done]. intros H. by apply Hinh in H.
Qed.

Lemma amenity_rank_and_icon_witness :
  Amenity.priority (toAmenity ["g"] (row "g" "GYM")) = Some 3 ∧
  Amenity.icon (toAmenity ["g"] (row "g" "GYM")) = Some "💪".
Proof.
  pose proof (amenity_rank_and_icon (Some (tableClient [row "g" "GYM"]))
                ["g"] [] (toAmenity ["g"] (row "g" "GYM"))) as H.
  cbn zeta in H.
  destruct (AMENITY_PRIORITY_MAP !! _) as [priorityInfo|] eqn:E in H.
  - destruct H as (Hp & Hi & _).
    + apply list_elem_of_In. vm_compute. by left.
    + vm_compute in E. injection E as <-. by split.
  - vm_compute in E. discriminate.
Defined.

(** ** aggregate: the ids as sets, and the provenance *)

(** X14.  The id arrays count as sets: a change of the two arrays that
    keeps the ids that are in-unit and the ids that are listed at all, such
    as reordering, repeating an id, or listing an in-unit id in-building as
    well, does not change the result. *)
Theorem aggregate_ids_as_sets (inUnit inUnit' inBuilding inBuilding' : list string)
    (lookupTable : list Row.t) :
  (∀ i, i ∈ inUnit ↔ i ∈ inUnit') →
  (∀ i, i ∈ inUnit ++ inBuilding ↔ i ∈ inUnit' ++ inBuilding') →
  aggregate inUnit inBuilding lookupTable = aggregate inUnit' inBuilding' lookupTable.
Proof.
  intros Hu Hall. rewrite !aggregate_eq. f_equal.
  rewrite (list_filter_iff _ (λ r, Row._id r ∈ inUnit' ++ inBuilding')) by (intros r; apply Hall).
  apply list_fmap_ext. intros _ r _. unfold toAmenity. f_equal.
  by rewrite (bool_decide_ext _ (Row._id r ∈ inUnit')).
Qed.

Lemma aggregate_ids_as_sets_witness :
  aggregate ["a"; "b"; "a"] ["c"; "a"] [row "c" "Closet"; row "a" "WiFi"; row "b" "Gym"]
  = aggregate ["b"; "a"] ["c"] [row "c" "Closet"; row "a" "WiFi"; row "b" "Gym"].
Proof.
  apply aggregate_ids_as_sets; intros i; simpl; set_unfold; tauto.
Defined.

(** X15.  The provenance tags are sound: an entry is tagged in-unit exactly
    when its id is in the in-unit array, and an entry tagged in-building has
    its id in the in-building array and not in the in-unit one. *)
Theorem aggregate_provenance (inUnitIds inBuildingIds : list string)
    (lookupTable : list Row.t) (a : Amenity.t) :
  a ∈ aggregate inUnitIds inBuildingIds lookupTable →
  (Amenity.category a = InUnit ↔ Amenity.id a ∈ inUnitIds) ∧
  (Amenity.category a = InBuilding →
   Amenity.id a ∈ inBuildingIds ∧ Amenity.id a ∉ inUnitIds).
Proof.
  intros (r & _ & Hid & ->)%elem_of_aggregate. simpl.
  destruct (bool_decide (Row._id r ∈ inUnitIds)) eqn:E.
  - apply bool_decide_eq_true in E. split; [done|discriminate].
  - apply bool_decide_eq_false in E. split; [split; [discriminate|done]|].
    intros _. split; [|done]. apply elem_of_app in Hid as [?|?]; done.
Qed.

Lemma aggregate_provenance_witness :
  Amenity.id (toAmenity ["a"] (row "c" "Closet")) ∈ ["c"; "a"] ∧
  Amenity.id (toAmenity ["a"] (row "c" "Closet")) ∉ ["a"].
Proof.
  apply (aggregate_provenance ["a"] ["c"; "a"] [row "c" "Closet"; row "a" "WiFi"]).
  - apply list_elem_of_In. vm_compute. right. by left.
  - reflexivity.
Defined.

(** ** Icons *)

(** X16.  The icon address is normalised: an entry has no [iconUrl] exactly
    when the row has no icon or an empty one; otherwise [iconUrl] is the
    row's icon, with [https:] put in front of a protocol-relative address,
    so it is never empty and never starts with two slashes.
    renderAmenityIcons shows the image then, and the emoji otherwise. *)
Theorem iconUrl_normalised (inUnitIds : list string) (r : Row.t) :
  let a := toAmenity inUnitIds r in
  (Amenity.iconUrl a = None ↔ Row.Icon r = None ∨ Row.Icon r = Some "") ∧
  (∀ url, Amenity.iconUrl a = Some url →
     url ≠ "" ∧ String.prefix "//" url = false ∧
     display (iconView a) = Image url (Row.Name r) ∧
     ∃ icon, Row.Icon r = Some icon ∧
       (String.prefix "//" icon = false ∧ url = icon ∨
        String.prefix "//" icon = true ∧ url = "https:" +:+ icon)) ∧
  (Amenity.iconUrl a = None → display (iconView a) = Emoji (Amenity.icon a)).
Proof.
  intros a. unfold a, iconView, toAmenity.
  cbn [Amenity.iconUrl Amenity.name Amenity.icon display].
  destruct (Row.Icon r) as [icon|]; [|split_and!; [split; auto|done|done]].
  destruct (bool_decide (icon = "")) eqn:Ee.
  { apply bool_decide_eq_true in Ee as ->. split_and!; [split; auto|done|done]. }
  apply bool_decide_eq_false in Ee.
  destruct (String.prefix "//" icon) eqn:Ep.
  - split_and!; [split; [done|intros [?|[= ?]]; done]| |done].
    intros url [= <-]. split_and!; [done|done|done|].
    exists icon. split; [done|]. by right.
  - split_and!; [split; [done|intros [?|[= ?]]; done]| |done].
    intros url [= <-]. rewrite bool_decide_eq_false_2 by done.
    split_and!; [done|done|done|]. exists icon. split; [done|]. by left.
Qed.

Lemma iconUrl_normalised_witness :
  display
    (iconView
       (toAmenity [] {| Row._id := "w"; Row.Name := Some "WiFi";
                        Row.Icon := Some "//cdn.example/wifi.svg" |}))
  = Image "https://cdn.example/wifi.svg" (Some "WiFi").
Proof.
  by destruct (proj1 (proj2 (iconUrl_normalised [] _)) _
                 (eq_refl : Amenity.iconUrl
                              (toAmenity [] {| Row._id := "w"; Row.Name := Some "WiFi";
                                               Row.Icon := Some "//cdn.example/wifi.svg" |})
                            = Some "https://cdn.example/wifi.svg"))
    as (_ & _ & ? & _).
Defined.

(** ** renderAmenityIcons *)

Lemma slice0_nonneg {A : Type} (l : list A) (k : Z) :
  0 ≤ k → slice0 l k = take (Z.to_nat k) l.
Proof.
  intros Hk. unfold slice0. replace (k <? 0) with false by lia.
  destruct (decide (k ≤ Z.of_nat (length l))).
  - by rewrite Z.min_l.
  - rewrite Z.min_r, Nat2Z.id, firstn_all by lia. symmetry. apply take_ge. lia.
Qed.

Lemma slice0_prefix {A : Type} (l : list A) (k : Z) :
  ∃ n, slice0 l k = take n l.
Proof. unfold slice0. eauto. Qed.

(** X17.  For a non-empty amenity array and a limit that is not negative,
    renderAmenityIcons accounts for every amenity: it shows the first
    [maxVisible] of them, in order, and the [+N more] counter, present
    exactly when the array is longer than the limit, is the number of
    amenities not shown. *)
Theorem renderAmenityIcons_accounts_for_all (amenities : list Amenity.t) (maxVisible : Z) :
  amenities ≠ [] → 0 ≤ maxVisible →
  ∃ visible more,
    renderAmenityIcons (Some amenities) maxVisible = Icons visible more ∧
    visible = iconView <$> take (Z.to_nat maxVisible) amenities ∧
    Z.of_nat (length visible) + default 0 more = Z.of_nat (length amenities) ∧
    (more = None ↔ Z.of_nat (length amenities) ≤ maxVisible) ∧
    (∀ hiddenCount, more = Some hiddenCount → 0 < hiddenCount).
Proof.
  intros Hne Hk. unfold renderAmenityIcons.
  destruct amenities as [|a amenities]; [done|].
  set (l := a :: amenities). rewrite slice0_nonneg by done.
  eexists _, _. split; [done|]. split; [done|].
  rewrite length_fmap, length_take.
  destruct (Z.max 0 (Z.of_nat (length l) - maxVisible) >? 0) eqn:E;
    rewrite Z.gtb_ltb in E; [apply Z.ltb_lt in E|apply Z.ltb_ge in E];
    subst l; simpl in *.
  - split_and!; [lia| |intros h [= <-]; lia]. split; [done|lia].
  - split_and!; [lia| |done]. split; [lia|done].
Qed.

Lemma renderAmenityIcons_accounts_for_all_witness :
  ∃ visible more,
    renderAmenityIcons
      (Some (aggregate ["a"; "b"; "c"] []
               [row "c" "Closet"; row "a" "WiFi"; row "b" "Gym"])) 2
    = Icons visible more ∧
    Z.of_nat (length visible) + default 0 more = 3.
Proof.
  destruct (renderAmenityIcons_accounts_for_all
              (aggregate ["a"; "b"; "c"] []
                 [row "c" "Closet"; row "a" "WiFi"; row "b" "Gym"]) 2)
    as (visible & more & E & _ & Hsum & _).
  - vm_compute. discriminate.
  - lia.
  - exists visible, more. split; [exact E|exact Hsum].
Defined.

(** With a negative limit [slice] counts from the end and the counter does
    not: one amenity is hidden and the counter says four. *)
Example renderAmenityIcons_negative_limit :
  ∃ visible,
    renderAmenityIcons
      (Some (aggregate ["a"; "b"; "c"] []
               [row "c" "Closet"; row "a" "WiFi"; row "b" "Gym"])) (-1)
    = Icons visible (Some 4) ∧ length visible = 2%nat.
Proof. eexists. by vm_compute. Qed.

(** X18.  The icons shown are the best-ranked ones: for array arguments
    and rows none of which has a name that lower-cases to an inherited
    member, the amenities renderAmenityIcons takes from the result of
    parseAmenities form its front part, and each of them ranks at least as
    high as every amenity left out, for every limit. *)
Theorem visible_amenities_rank_first (api : option SupabaseAPI)
    (inUnitIds inBuildingIds : list string) (maxVisible : Z) :
  let out := parseAmenities api (IdArray inUnitIds) (IdArray inBuildingIds) in
  (∀ r, r ∈ fetchAmenityDetails api (inUnitIds ++ inBuildingIds) →
     toLowerCase (default "" (Row.Name r)) ≠ "constructor" ∧
     toLowerCase (default "" (Row.Name r)) ≠ "__proto__") →
  ∃ hidden,
    out = slice0 out maxVisible ++ hidden ∧
    ∀ shown left_out, shown ∈ slice0 out maxVisible → left_out ∈ hidden →
      ∃ rank rank', Amenity.priority shown = Some rank ∧
                    Amenity.priority left_out = Some rank' ∧ rank ≤ rank'.
Proof.
  intros out Hnames.
  destruct (ranked_rows_sorted inUnitIds
              (fetchAmenityDetails api (inUnitIds ++ inBuildingIds)))
    as (_ & Hdef & Hsorted).
  { intros r Hr. by apply ranked_spec, Hnames. }
  assert (out = Js.sortByNumber Amenity.priority
                  (toAmenity inUnitIds <$>
                   fetchAmenityDetails api (inUnitIds ++ inBuildingIds))) as Hout.
  { unfold out. by rewrite parseAmenities_eq. }
  cbn zeta in Hdef, Hsorted. rewrite <-Hout in Hdef, Hsorted.
  destruct (slice0_prefix out maxVisible) as [n ->].
  exists (drop n out). split; [by rewrite take_drop|].
  intros shown left_out Hs Hl.
  assert (shown ∈ out) as Hs' by (rewrite <-(take_drop n out); apply elem_of_app; by left).
  assert (left_out ∈ out) as Hl' by (rewrite <-(take_drop n out); apply elem_of_app; by right).
  destruct (Hdef _ Hs') as [rank Hrank], (Hdef _ Hl') as [rank' Hrank'].
  exists rank, rank'. split_and!; [done..|].
  rewrite <-(take_drop n out) in Hsorted.
  pose proof (StronglySorted_app_1_elem_of _ _ _ _ _ Hsorted Hs Hl) as Hle.
  unfold Js.ascending in Hle. by rewrite Hrank, Hrank' in Hle.
Qed.

Lemma visible_amenities_rank_first_witness :
  ∃ hidden,
    aggregate ["a"; "b"; "c"] [] [row "c" "Closet"; row "a" "WiFi"; row "b" "Gym"]
    = slice0 (aggregate ["a"; "b"; "c"] []
                [row "c" "Closet"; row "a" "WiFi"; row "b" "Gym"]) 2 ++ hidden.
Proof.
  destruct (visible_amenities_rank_first
              (Some (tableClient [row "c" "Closet"; row "a" "WiFi"; row "b" "Gym"]))
              ["a"; "b"; "c"] [] 2) as (hidden & E & _).
  - intros r Hr. apply list_elem_of_In in Hr. vm_compute in Hr.
    destruct Hr as [<-|[<-|[<-|[]]]]; by vm_compute.
  - exists hidden. exact E.
Defined.
